(** * receta-app-v2: the chat hook and its use case

    A shallow embedding of [src/presentation/hooks/useChat.ts] and of the
    chat part of [src/domain/useCases/chat/ChatUseCase.ts].

    The hook is a closure over React state ([mensajes], [typingUsers], ...)
    and two refs ([typingTimeoutRef], [typingTimers]); its callbacks run to
    completion one at a time on the JavaScript event loop.  The embedding
    keeps one record [Estado] holding the hook's state, the event loop's
    table of pending timers with a virtual clock in milliseconds, and the
    log of the calls made to the backend client.  Each callback of the hook
    is a function [Estado -> Estado].

    Modelling conventions.
    - Identifiers, e-mails and timestamps are [string]s: the code only
      compares them for equality or passes them on.  A message body is a
      list of UTF-16 code units, because [String.prototype.trim] is decided
      by code units.
    - Timer handles are the positive numbers handed out by [setTimeout]
      (never reused), so [if (ref)] on a handle is a test for presence.
    - [typingTimers.current] is a plain object keyed by sender identifier.
      Its own properties are a finite map; reading a key it does not own
      falls through to [Object.prototype], and assigning a number to the
      key ["__proto__"] stores nothing (see [leer_propiedad] and
      [asignar_propiedad]).
    - A React functional update [setX(prev => f prev)] is applied at once:
      updates are applied in the order they were queued.
    - An [await] resolves before any other callback runs. *)

From stdpp Require Import gmap strings list sorting.

Set Default Proof Using "Type".

(* ===================================================================== *)
(** * Data model *)
(* ===================================================================== *)

(** A JavaScript string seen as its UTF-16 code units. *)
Abbreviation JsString := (list N).

(** Row of table [mensajes] as the store or the change feed delivers it;
    the two denormalized columns may be missing. *)
Record Fila := {
  f_id : string;
  f_contenido : JsString;
  f_usuario_id : string;
  f_created_at : string;
  f_usuario_email : option string;
  f_usuario_rol : option string;
}.

Record UsuarioMensaje := {
  um_email : string;
  um_rol : string;
}.

(** [Mensaje] of [domain/models/Mensaje]. *)
Record Mensaje := {
  m_id : string;
  m_contenido : JsString;
  m_usuario_id : string;
  m_created_at : string;
  m_usuario : UsuarioMensaje;
}.

(** Payload of a broadcast on channel [typing-broadcast]. *)
Record TypingEvent := {
  te_usuario_id : string;
  te_email : option string;
  te_escribiendo : bool;
}.

(** Entry of the [typingUsers] state. *)
Record TypingUser := {
  tu_usuario_id : string;
  tu_email : option string;
}.

(** The identity [supabase.auth.getUser()] resolves to. *)
Record Identidad := {
  i_id : string;
  i_email : option string;
}.

(** Result of [enviarMensaje] and [eliminarMensaje]:
    [{ success: boolean; error?: string }]. *)
Record Resultado := {
  success : bool;
  error : option string;
}.

(** What [await supabase.from("mensajes").select(...)] can do: resolve to
    [{data, error}], or reject. *)
Inductive RespuestaSelect :=
| Resuelve (data : option (list Fila)) (err : option string)
| Rechaza (err : string).

(** The backend as the client sees it during one callback. *)
Record Backend := {
  sesion : option Identidad;
  select_resp : nat → RespuestaSelect;
  insert_error : option string;
  delete_error : option string;
}.

(** Calls that leave the client. *)
Inductive Llamada :=
| LlGetUser
| LlSelect (ascending : bool) (limite : nat)
| LlInsert (contenido : JsString) (usuario_id : string)
| LlDelete (id : string)
| LlBroadcast (usuario_id email : string) (escribiendo : bool).

(** The two closures the hook hands to [setTimeout]. *)
Inductive Callback :=
| CbDejarDeEscribir
| CbExpirar (usuario_id : string).

Record Timer := {
  t_id : nat;
  t_vence : nat;
  t_cb : Callback;
}.

Record Estado := {
  (* React state *)
  mensajes : list Mensaje;
  cargando : bool;
  enviando : bool;
  typingUsers : list TypingUser;
  (* refs *)
  typingTimeoutRef : option nat;
  typingTimers : gmap string nat;
  (* event loop *)
  ahora : nat;
  prox_timer : nat;
  pendientes : list Timer;
  disparados : list nat;
  (* calls made so far, with the time of the call *)
  red : list (nat * Llamada);
}.

Global Instance Callback_eq_dec : EqDecision Callback.
Proof. solve_decision. Defined.

Global Instance Llamada_eq_dec : EqDecision Llamada.
Proof. solve_decision. Defined.

(** Field updates. *)
Definition con_mensajes (f : list Mensaje → list Mensaje) (st : Estado) : Estado :=
  {| mensajes := f (mensajes st); cargando := cargando st; enviando := enviando st;
     typingUsers := typingUsers st; typingTimeoutRef := typingTimeoutRef st;
     typingTimers := typingTimers st; ahora := ahora st; prox_timer := prox_timer st;
     pendientes := pendientes st; disparados := disparados st; red := red st |}.

Definition con_cargando (b : bool) (st : Estado) : Estado :=
  {| mensajes := mensajes st; cargando := b; enviando := enviando st;
     typingUsers := typingUsers st; typingTimeoutRef := typingTimeoutRef st;
     typingTimers := typingTimers st; ahora := ahora st; prox_timer := prox_timer st;
     pendientes := pendientes st; disparados := disparados st; red := red st |}.

Definition con_enviando (b : bool) (st : Estado) : Estado :=
  {| mensajes := mensajes st; cargando := cargando st; enviando := b;
     typingUsers := typingUsers st; typingTimeoutRef := typingTimeoutRef st;
     typingTimers := typingTimers st; ahora := ahora st; prox_timer := prox_timer st;
     pendientes := pendientes st; disparados := disparados st; red := red st |}.

Definition con_typingUsers (f : list TypingUser → list TypingUser) (st : Estado) : Estado :=
  {| mensajes := mensajes st; cargando := cargando st; enviando := enviando st;
     typingUsers := f (typingUsers st); typingTimeoutRef := typingTimeoutRef st;
     typingTimers := typingTimers st; ahora := ahora st; prox_timer := prox_timer st;
     pendientes := pendientes st; disparados := disparados st; red := red st |}.

Definition con_typingTimeoutRef (r : option nat) (st : Estado) : Estado :=
  {| mensajes := mensajes st; cargando := cargando st; enviando := enviando st;
     typingUsers := typingUsers st; typingTimeoutRef := r;
     typingTimers := typingTimers st; ahora := ahora st; prox_timer := prox_timer st;
     pendientes := pendientes st; disparados := disparados st; red := red st |}.

Definition con_typingTimers (f : gmap string nat → gmap string nat) (st : Estado) : Estado :=
  {| mensajes := mensajes st; cargando := cargando st; enviando := enviando st;
     typingUsers := typingUsers st; typingTimeoutRef := typingTimeoutRef st;
     typingTimers := f (typingTimers st); ahora := ahora st; prox_timer := prox_timer st;
     pendientes := pendientes st; disparados := disparados st; red := red st |}.

Definition con_ahora (t : nat) (st : Estado) : Estado :=
  {| mensajes := mensajes st; cargando := cargando st; enviando := enviando st;
     typingUsers := typingUsers st; typingTimeoutRef := typingTimeoutRef st;
     typingTimers := typingTimers st; ahora := t; prox_timer := prox_timer st;
     pendientes := pendientes st; disparados := disparados st; red := red st |}.

Definition con_prox_timer (n : nat) (st : Estado) : Estado :=
  {| mensajes := mensajes st; cargando := cargando st; enviando := enviando st;
     typingUsers := typingUsers st; typingTimeoutRef := typingTimeoutRef st;
     typingTimers := typingTimers st; ahora := ahora st; prox_timer := n;
     pendientes := pendientes st; disparados := disparados st; red := red st |}.

Definition con_pendientes (f : list Timer → list Timer) (st : Estado) : Estado :=
  {| mensajes := mensajes st; cargando := cargando st; enviando := enviando st;
     typingUsers := typingUsers st; typingTimeoutRef := typingTimeoutRef st;
     typingTimers := typingTimers st; ahora := ahora st; prox_timer := prox_timer st;
     pendientes := f (pendientes st); disparados := disparados st; red := red st |}.

Definition con_disparados (f : list nat → list nat) (st : Estado) : Estado :=
  {| mensajes := mensajes st; cargando := cargando st; enviando := enviando st;
     typingUsers := typingUsers st; typingTimeoutRef := typingTimeoutRef st;
     typingTimers := typingTimers st; ahora := ahora st; prox_timer := prox_timer st;
     pendientes := pendientes st; disparados := f (disparados st); red := red st |}.

Definition con_red (f : list (nat * Llamada) → list (nat * Llamada)) (st : Estado) : Estado :=
  {| mensajes := mensajes st; cargando := cargando st; enviando := enviando st;
     typingUsers := typingUsers st; typingTimeoutRef := typingTimeoutRef st;
     typingTimers := typingTimers st; ahora := ahora st; prox_timer := prox_timer st;
     pendientes := pendientes st; disparados := disparados st; red := f (red st) |}.

(** The hook right after its first render: [useState([])], [useState(true)],
    [useState(false)], [useState([])], [useRef(null)], [useRef({})]. *)
Definition inicial : Estado :=
  {| mensajes := []; cargando := true; enviando := false; typingUsers := [];
     typingTimeoutRef := None; typingTimers := ∅;
     ahora := 0; prox_timer := 1; pendientes := []; disparados := []; red := [] |}.

(* ===================================================================== *)
(** * JavaScript helpers *)
(* ===================================================================== *)

(** [a || b] on a possibly missing string: the empty string is falsy too. *)
Definition o_defecto (a : option string) (b : string) : string :=
  match a with
  | Some s => if String.eqb s "" then b else s
  | None => b
  end.

(** Code units [String.prototype.trim] strips: ECMAScript WhiteSpace and
    LineTerminator. *)
Definition es_espacio (c : N) : bool :=
  ((9 <=? c) && (c <=? 13) ||
   (c =? 32) || (c =? 160) || (c =? 5760) ||
   (8192 <=? c) && (c <=? 8202) ||
   (c =? 8232) || (c =? 8233) || (c =? 8239) || (c =? 8287) ||
   (c =? 12288) || (c =? 65279))%N.

Fixpoint quitar_inicio (s : JsString) : JsString :=
  match s with
  | [] => []
  | c :: s' => if es_espacio c then quitar_inicio s' else s
  end.

Definition trim (s : JsString) : JsString :=
  reverse (quitar_inicio (reverse (quitar_inicio s))).

(** [!s] on a string. *)
Definition es_vacia (s : JsString) : bool :=
  match s with [] => true | _ => false end.

(** ** A plain object used as a table of timer handles *)

(** What [o[k]] can be for such an object. *)
Inductive ValorJs :=
| Indefinido
| Handle (h : nat)
| Heredado.

(** The key whose setter on [Object.prototype] changes the prototype. *)
Definition proto : string := "__proto__".

(** The members every plain object inherits from [Object.prototype]. *)
Definition heredadas : list string :=
  [proto; "constructor"; "hasOwnProperty"; "isPrototypeOf";
   "propertyIsEnumerable"; "toLocaleString"; "toString"; "valueOf";
   "__defineGetter__"; "__defineSetter__"; "__lookupGetter__";
   "__lookupSetter__"].

(** [o[k]]: the own property, else the inherited member, else
    [undefined]. *)
Definition leer_propiedad (k : string) (o : gmap string nat) : ValorJs :=
  match o !! k with
  | Some h => Handle h
  | None => if bool_decide (k ∈ heredadas) then Heredado else Indefinido
  end.

(** [if (v)]: handles are positive numbers, inherited members are objects
    and functions. *)
Definition es_verdadero (v : ValorJs) : bool :=
  match v with
  | Indefinido => false
  | Handle _ => true
  | Heredado => true
  end.

(** [o[k] = h] for a number [h]: an own property is written, except under
    ["__proto__"], whose setter ignores what is not an object. *)
Definition asignar_propiedad (k : string) (h : nat) (o : gmap string nat)
  : gmap string nat :=
  if bool_decide (k = proto) then o else <[k := h]> o.

(** [delete o[k]]: only an own property goes. *)
Definition borrar_propiedad (k : string) (o : gmap string nat) : gmap string nat :=
  delete k o.

(** [Object.values(o)]: the values of the own properties. *)
Definition valores (o : gmap string nat) : list nat := (map_to_list o).*2.

(* ===================================================================== *)
(** * The event loop: timers and virtual time *)
(* ===================================================================== *)

(** [setTimeout(cb, ms)]: a fresh handle, the timer appended to the table. *)
Definition setTimeout (cb : Callback) (ms : nat) (st : Estado) : nat * Estado :=
  let h := prox_timer st in
  (h, con_prox_timer (S h)
        (con_pendientes (λ l, l ++ [{| t_id := h; t_vence := ahora st + ms; t_cb := cb |}]) st)).

(** [clearTimeout(h)]. *)
Definition clearTimeout (h : nat) (st : Estado) : Estado :=
  con_pendientes (filter (λ t, t_id t ≠ h)) st.

(** [clearTimeout(v)] on whatever was read from the table: what is not a
    handle clears nothing. *)
Definition clearTimeout_valor (v : ValorJs) (st : Estado) : Estado :=
  match v with
  | Handle h => clearTimeout h st
  | _ => st
  end.

(** A call leaves the client now. *)
Definition llamar (c : Llamada) (st : Estado) : Estado :=
  con_red (λ l, l ++ [(ahora st, c)]) st.

(* ===================================================================== *)
(** * ChatUseCase *)
(* ===================================================================== *)

Module ChatUseCase.

(** The mapping inside [obtenerMensajes]: [(data || []).map(msg => ...)]. *)
Definition formatear (msg : Fila) : Mensaje :=
  {| m_id := f_id msg;
     m_contenido := f_contenido msg;
     m_usuario_id := f_usuario_id msg;
     m_created_at := f_created_at msg;
     m_usuario := {| um_email := o_defecto (f_usuario_email msg) "Desconocido";
                     um_rol := o_defecto (f_usuario_rol msg) "usuario" |} |}.

(** The [try] block of [obtenerMensajes]; [inl] is a thrown error. *)
Definition obtenerMensajes_try (resp : RespuestaSelect) : string + list Mensaje :=
  match resp with
  | Rechaza e => inl e
  | Resuelve _ (Some e) => inl e
  | Resuelve data None => inr (reverse (formatear <$> default [] data))
  end.

(** [obtenerMensajes(limite = 50)]: the query asks for
    [order("created_at", {ascending: false}).limit(limite)]; the [catch]
    turns every error into the empty list. *)
Definition obtenerMensajes (be : Backend) (limite : nat) (st : Estado)
  : list Mensaje * Estado :=
  let st1 := llamar (LlSelect false limite) st in
  match obtenerMensajes_try (select_resp be limite) with
  | inr ms => (ms, st1)
  | inl _ => ([], st1)
  end.

(** [enviarMensaje(contenido)]. *)
Definition enviarMensaje (be : Backend) (contenido : JsString) (st : Estado)
  : Resultado * Estado :=
  let st1 := llamar LlGetUser st in
  match sesion be with
  | None => ({| success := false; error := Some "Usuario no autenticado" |}, st1)
  | Some user =>
      let st2 := llamar (LlInsert contenido (i_id user)) st1 in
      match insert_error be with
      | Some msg => ({| success := false; error := Some msg |}, st2)
      | None => ({| success := true; error := None |}, st2)
      end
  end.

(** The payload mapping inside [suscribirseAMensajes]. *)
Definition mensajeDePayload (nuevo : Fila) : Mensaje :=
  {| m_id := f_id nuevo;
     m_contenido := f_contenido nuevo;
     m_usuario_id := f_usuario_id nuevo;
     m_created_at := f_created_at nuevo;
     m_usuario := {| um_email := o_defecto (f_usuario_email nuevo) "Desconocido";
                     um_rol := o_defecto (f_usuario_rol nuevo) "usuario" |} |}.

(** [setTyping(escribiendo)]: nothing is sent without a user. *)
Definition setTyping (be : Backend) (escribiendo : bool) (st : Estado) : Estado :=
  let st1 := llamar LlGetUser st in
  match sesion be with
  | None => st1
  | Some user =>
      llamar (LlBroadcast (i_id user) (o_defecto (i_email user) "Desconocido")
                escribiendo) st1
  end.

(** [eliminarMensaje(mensajeId)]. *)
Definition eliminarMensaje (be : Backend) (mensajeId : string) (st : Estado)
  : Resultado * Estado :=
  let st1 := llamar (LlDelete mensajeId) st in
  match delete_error be with
  | Some msg => ({| success := false; error := Some msg |}, st1)
  | None => ({| success := true; error := None |}, st1)
  end.

End ChatUseCase.

(* ===================================================================== *)
(** * useChat *)
(* ===================================================================== *)

Module UseChat.

(** [cargarMensajes]. *)
Definition cargarMensajes (be : Backend) (st : Estado) : Estado :=
  let st1 := con_cargando true st in
  let '(mensajesObtenidos, st2) := ChatUseCase.obtenerMensajes be 50 st1 in
  con_cargando false (con_mensajes (λ _, mensajesObtenidos) st2).

(** [enviarMensaje(contenido)]. *)
Definition enviarMensaje (be : Backend) (contenido : JsString) (st : Estado)
  : Resultado * Estado :=
  if es_vacia (trim contenido)
  then ({| success := false; error := Some "El mensaje está vacío" |}, st)
  else
    let st1 := con_enviando true st in
    let '(resultado, st2) := ChatUseCase.enviarMensaje be contenido st1 in
    let st3 := con_enviando false st2 in
    let st4 := ChatUseCase.setTyping be false st3 in
    (resultado, st4).

(** [notifyTyping()]. *)
Definition notifyTyping (be : Backend) (st : Estado) : Estado :=
  let st1 := ChatUseCase.setTyping be true st in
  let st2 := match typingTimeoutRef st1 with
             | Some h => clearTimeout h st1
             | None => st1
             end in
  let '(h, st3) := setTimeout CbDejarDeEscribir 1500 st2 in
  con_typingTimeoutRef (Some h) st3.

(** [eliminarMensaje(mensajeId)]. *)
Definition eliminarMensaje (be : Backend) (mensajeId : string) (st : Estado)
  : Resultado * Estado :=
  let '(resultado, st1) := ChatUseCase.eliminarMensaje be mensajeId st in
  if success resultado
  then (resultado, con_mensajes (filter (λ m, m_id m ≠ mensajeId)) st1)
  else (resultado, st1).

(** The updater given to [setMensajes] by the live callback. *)
Definition agregarSiNuevo (prev : list Mensaje) (nuevoMensaje : Mensaje)
  : list Mensaje :=
  if existsb (λ m, String.eqb (m_id m) (m_id nuevoMensaje)) prev
  then prev
  else prev ++ [nuevoMensaje].

(** The callback passed to [suscribirseAMensajes]. *)
Definition alNuevoMensaje (nuevoMensaje : Mensaje) (st : Estado) : Estado :=
  con_mensajes (λ prev, agregarSiNuevo prev nuevoMensaje) st.

(** The updater given to [setTypingUsers] when someone types. *)
Definition agregarTypingUser (usuario_id : string) (email : option string)
    (prev : list TypingUser) : list TypingUser :=
  if existsb (λ u, String.eqb (tu_usuario_id u) usuario_id) prev
  then prev
  else prev ++ [{| tu_usuario_id := usuario_id; tu_email := email |}].

Definition quitarTypingUser (usuario_id : string) (prev : list TypingUser)
  : list TypingUser :=
  filter (λ u, tu_usuario_id u ≠ usuario_id) prev.

(** The callback passed to [suscribirseATyping]. *)
Definition alTyping (evento : TypingEvent) (st : Estado) : Estado :=
  let usuario_id := te_usuario_id evento in
  if te_escribiendo evento then
    let anterior := leer_propiedad usuario_id (typingTimers st) in
    let st1 := if es_verdadero anterior then clearTimeout_valor anterior st else st in
    let st2 := con_typingUsers (agregarTypingUser usuario_id (te_email evento)) st1 in
    let '(h, st3) := setTimeout (CbExpirar usuario_id) 3000 st2 in
    con_typingTimers (asignar_propiedad usuario_id h) st3
  else
    let anterior := leer_propiedad usuario_id (typingTimers st) in
    let st1 := if es_verdadero anterior
               then con_typingTimers (borrar_propiedad usuario_id)
                      (clearTimeout_valor anterior st)
               else st in
    con_typingUsers (quitarTypingUser usuario_id) st1.

(** The bodies of the two timer closures. *)
Definition ejecutar (be : Backend) (cb : Callback) (st : Estado) : Estado :=
  match cb with
  | CbDejarDeEscribir =>
      con_typingTimeoutRef None (ChatUseCase.setTyping be false st)
  | CbExpirar usuario_id =>
      con_typingTimers (borrar_propiedad usuario_id)
        (con_typingUsers (quitarTypingUser usuario_id) st)
  end.

(** The cleanup returned by the effect.  [desuscribir()] and
    [desuscribirTyping()] remove the two channels, which stops the
    delivery of events; on the state, the cleanup clears the debounce
    timer and the timers [Object.values] finds in the table. *)
Definition limpiar (st : Estado) : Estado :=
  let st1 := match typingTimeoutRef st with
             | Some h => clearTimeout h st
             | None => st
             end in
  let st2 := foldl (λ acc t, clearTimeout t acc) st1
               (valores (typingTimers st1)) in
  con_typingTimers (λ _, ∅) st2.

End UseChat.

(* ===================================================================== *)
(** * RecipesUseCase: the file extension of an uploaded image *)
(* ===================================================================== *)

Module RecipesUseCase.

(** [s.split(sep)] for a separator of one code unit, and [s.split(/[...]/)]
    for a class of code units: the pieces between the separators, always
    at least one. *)
Fixpoint split_aux (sep : N → bool) (acc : JsString) (s : JsString) : list JsString :=
  match s with
  | [] => [reverse acc]
  | c :: r => if sep c then reverse acc :: split_aux sep [] r
              else split_aux sep (c :: acc) r
  end.

Definition split (sep : N → bool) (s : JsString) : list JsString :=
  split_aux sep [] s.

(** "/" *)
Definition es_barra (c : N) : bool := (c =? 47)%N.
(** "." *)
Definition es_punto (c : N) : bool := (c =? 46)%N.
(** [/[#?]/] *)
Definition es_almohadilla_o_interrogacion (c : N) : bool :=
  ((c =? 35) || (c =? 63))%N.

(** A string or [undefined] is truthy when it is a non-empty string. *)
Definition verdadero (s : option JsString) : bool :=
  match s with
  | Some (_ :: _) => true
  | _ => false
  end.

(** "jpg" and "image/" *)
Definition jpg : JsString := [106; 112; 103]%N.
Definition image_barra : JsString := [105; 109; 97; 103; 101; 47]%N.

(** The block of [subirImagen] that derives the extension of the file name
    and the content type of the upload from the MIME type found so far
    and the URI. *)
Definition derivarExtension (mimeType : option JsString) (uri : JsString)
  : JsString * JsString :=
  let extension : option JsString :=
    if verdadero mimeType then
      let parts := split es_barra (default [] mimeType) in
      parts !! 1
    else
      let maybeExt :=
        head (split es_almohadilla_o_interrogacion
                (default [] (last (split es_punto uri)))) in
      if verdadero maybeExt && (length (default [] maybeExt) <=? 5)
      then maybeExt else None in
  let extension := if verdadero extension then default [] extension else jpg in
  let mimeType := if verdadero mimeType then default [] mimeType
                  else image_barra ++ extension in
  (extension, mimeType).

End RecipesUseCase.

(* ===================================================================== *)
(** * Running the event loop *)
(* ===================================================================== *)

(** The timer the loop fires next among those due by [hasta]: the earliest
    due time, and among equals the one scheduled first. *)
Fixpoint proximo (hasta : nat) (l : list Timer) : option Timer :=
  match l with
  | [] => None
  | t :: l' =>
      if t_vence t <=? hasta then
        match proximo hasta l' with
        | Some t' => if t_vence t' <? t_vence t then Some t' else Some t
        | None => Some t
        end
      else proximo hasta l'
  end.

(** Firing a timer: it leaves the table, the clock is at its due time, its
    closure runs. *)
Definition disparar (be : Backend) (t : Timer) (st : Estado) : Estado :=
  UseChat.ejecutar be (t_cb t)
    (con_disparados (λ l, l ++ [t_id t])
       (con_ahora (ahora st `max` t_vence t)
          (con_pendientes (filter (λ x, t_id x ≠ t_id t)) st))).

Fixpoint correr_timers (be : Backend) (n : nat) (hasta : nat) (st : Estado) : Estado :=
  match n with
  | 0 => st
  | S n' =>
      match proximo hasta (pendientes st) with
      | None => st
      | Some t => correr_timers be n' hasta (disparar be t st)
      end
  end.

(** [dt] milliseconds pass with nothing else happening: every timer due by
    then fires, in order.  No closure of the hook schedules a timer, so the
    size of the table bounds the number of firings. *)
Definition avanzar (be : Backend) (dt : nat) (st : Estado) : Estado :=
  let hasta := ahora st + dt in
  con_ahora hasta (correr_timers be (length (pendientes st)) hasta st).

(** What can happen to a mounted hook. *)
Inductive Accion :=
| ACargar
| AEnviar (contenido : JsString)
| AEliminar (mensajeId : string)
| ANotifyTyping
| ANuevoMensaje (fila : Fila)
| ATyping (evento : TypingEvent)
| AEsperar (dt : nat).

Definition paso (be : Backend) (a : Accion) (st : Estado) : Estado :=
  match a with
  | ACargar => UseChat.cargarMensajes be st
  | AEnviar contenido => (UseChat.enviarMensaje be contenido st).2
  | AEliminar mensajeId => (UseChat.eliminarMensaje be mensajeId st).2
  | ANotifyTyping => UseChat.notifyTyping be st
  | ANuevoMensaje fila => UseChat.alNuevoMensaje (ChatUseCase.mensajeDePayload fila) st
  | ATyping evento => UseChat.alTyping evento st
  | AEsperar dt => avanzar be dt st
  end.

(** States of a mounted hook: from the first render, any actions against
    any backend. *)
Inductive alcanzable : Estado → Prop :=
| alc_inicial : alcanzable inicial
| alc_paso be a st : alcanzable st → alcanzable (paso be a st).

Definition correr (be : Backend) (acciones : list Accion) (st : Estado) : Estado :=
  foldl (λ acc a, paso be a acc) st acciones.

(* ===================================================================== *)
(** * Vocabulary of the properties *)
(* ===================================================================== *)

(** The store failed: the response carries an error, or the request was
    rejected. *)
Definition es_fallo (r : RespuestaSelect) : bool :=
  match r with
  | Resuelve _ (Some _) => true
  | Resuelve _ None => false
  | Rechaza _ => true
  end.

(** What one [setTyping] puts on the wire. *)
Definition llamadas_typing (be : Backend) (escribiendo : bool) : list Llamada :=
  LlGetUser ::
  match sesion be with
  | Some user =>
      [LlBroadcast (i_id user) (o_defecto (i_email user) "Desconocido") escribiendo]
  | None => []
  end.

(** What one send puts on the wire. *)
Definition llamadas_envio (be : Backend) (contenido : JsString) : list Llamada :=
  if es_vacia (trim contenido) then []
  else match sesion be with
       | Some user =>
           [LlGetUser; LlInsert contenido (i_id user); LlGetUser;
            LlBroadcast (i_id user) (o_defecto (i_email user) "Desconocido") false]
       | None => [LlGetUser; LlGetUser]
       end.

(** A "stopped typing" publish. *)
Definition es_stop (x : nat * Llamada) : Prop :=
  match x.2 with
  | LlBroadcast _ _ false => True
  | _ => False
  end.

Global Instance es_stop_dec x : Decision (es_stop x).
Proof. unfold es_stop. destruct x.2 as [| | | |? ? []]; apply _. Defined.

(** An insert into table [mensajes]. *)
Definition es_insert (x : nat * Llamada) : Prop :=
  match x.2 with
  | LlInsert _ _ => True
  | _ => False
  end.

Global Instance es_insert_dec x : Decision (es_insert x).
Proof. unfold es_insert. destruct x.2; apply _. Defined.

(** A call that writes on behalf of a user does so for the signed-in one. *)
Definition llamada_de_sesion (be : Backend) (x : nat * Llamada) : Prop :=
  match x.2 with
  | LlInsert _ usuario_id => i_id <$> sesion be = Some usuario_id
  | LlBroadcast usuario_id _ _ => i_id <$> sesion be = Some usuario_id
  | _ => True
  end.

(** How long a timer of each kind runs. *)
Definition plazo (cb : Callback) : nat :=
  match cb with
  | CbDejarDeEscribir => 1500
  | CbExpirar _ => 3000
  end.

(** Any publish on the typing channel. *)
Definition es_typing (x : nat * Llamada) : Prop :=
  match x.2 with
  | LlBroadcast _ _ _ => True
  | _ => False
  end.

Global Instance es_typing_dec x : Decision (es_typing x).
Proof. unfold es_typing. destruct x.2; apply _. Defined.

(** The sender is shown as typing. *)
Definition escribe (usuario_id : string) (st : Estado) : Prop :=
  usuario_id ∈ tu_usuario_id <$> typingUsers st.

Global Instance escribe_dec usuario_id st : Decision (escribe usuario_id st).
Proof. unfold escribe. apply _. Defined.

(** Pending timers that expire a given sender. *)
Definition timers_de (usuario_id : string) (st : Estado) : list Timer :=
  filter (λ t, t_cb t = CbExpirar usuario_id) (pendientes st).

(** The pending timers of the local debouncer. *)
Definition dejar_de (st : Estado) : list Timer :=
  filter (λ t, t_cb t = CbDejarDeEscribir) (pendientes st).


(** A sender that keeps typing: one event now, then one after each pause. *)
Definition refrescos (be : Backend) (evento : TypingEvent) (pausas : list nat)
    (st : Estado) : Estado :=
  foldl (λ acc dt, UseChat.alTyping evento (avanzar be dt acc))
    (UseChat.alTyping evento st) pausas.

(** How the refs and the timer table hang together in a mounted hook.  The
    sender ["__proto__"] stands apart: the table never holds a handle for
    it, so its timers are not tracked. *)
Record Inv (st : Estado) : Prop := {
  inv_ids_nodup : NoDup (t_id <$> pendientes st);
  inv_ids_lt : ∀ t, t ∈ pendientes st → t_id t < prox_timer st;
  inv_disp_lt : ∀ h, h ∈ disparados st → h < prox_timer st;
  inv_disp_pend : ∀ t, t ∈ pendientes st → t_id t ∉ disparados st;
  inv_expirar : ∀ t u, t ∈ pendientes st → t_cb t = CbExpirar u → u ≠ proto →
                typingTimers st !! u = Some (t_id t);
  inv_tabla : ∀ u h, typingTimers st !! u = Some h →
              ∃ t, t ∈ pendientes st ∧ t_id t = h ∧ t_cb t = CbExpirar u;
  inv_proto : typingTimers st !! proto = None;
  inv_dejar : ∀ t, t ∈ pendientes st → t_cb t = CbDejarDeEscribir →
              typingTimeoutRef st = Some (t_id t);
  inv_ref : ∀ h, typingTimeoutRef st = Some h →
            h < prox_timer st ∧
            ∀ t, t ∈ pendientes st → t_id t = h → t_cb t = CbDejarDeEscribir;
  inv_users : ∀ u, u ≠ proto → (escribe u st ↔ is_Some (typingTimers st !! u));
  inv_users_proto : escribe proto st →
                    ∃ t, t ∈ pendientes st ∧ t_cb t = CbExpirar proto;
  inv_users_nodup : NoDup (tu_usuario_id <$> typingUsers st);
}.

(** A handle that is neither pending nor fired, and older than the next
    one to be handed out. *)
Definition muerto (h : nat) (st : Estado) : Prop :=
  h < prox_timer st ∧ (h ∉ disparados st) ∧ (∀ t, t ∈ pendientes st → t_id t ≠ h).

(** No pending timer is overdue. *)
Definition al_dia (st : Estado) : Prop :=
  ∀ t, t ∈ pendientes st → ahora st ≤ t_vence t.

(** A handle in the debouncer's ref names a pending timer. *)
Definition ref_vivo (st : Estado) : Prop :=
  ∀ h, typingTimeoutRef st = Some h → ∃ t, t ∈ pendientes st ∧ t_id t = h.

(** No pending timer is due later than its delay from now. *)
Definition acotados (st : Estado) : Prop :=
  ∀ t, t ∈ pendientes st → t_vence t ≤ ahora st + plazo (t_cb t).

(** Every pending timer is due strictly later. *)
Definition futuros (st : Estado) : Prop :=
  ∀ t, t ∈ pendientes st → ahora st < t_vence t.


(* ===================================================================== *)
(** * Sample values *)
(* ===================================================================== *)

Module Ejemplos.

Definition ana : Identidad := {| i_id := "u-ana"; i_email := Some "ana@recetas.app" |}.

(** "hola" *)
Definition hola : JsString := [104; 111; 108; 97]%N.

(** Space, tab, no-break space, line feed. *)
Definition blancos : JsString := [32; 9; 160; 10]%N.

Definition fila1 : Fila :=
  {| f_id := "m1"; f_contenido := hola; f_usuario_id := "u-ana";
     f_created_at := "2024-05-01T10:00:00"; f_usuario_email := Some "ana@recetas.app";
     f_usuario_rol := Some "chef" |}.

Definition fila2 : Fila :=
  {| f_id := "m2"; f_contenido := hola; f_usuario_id := "u-luis";
     f_created_at := "2024-05-01T10:05:00"; f_usuario_email := None;
     f_usuario_rol := None |}.

Definition fila3 : Fila :=
  {| f_id := "m3"; f_contenido := hola; f_usuario_id := "u-ana";
     f_created_at := "2024-05-01T10:07:30"; f_usuario_email := Some "";
     f_usuario_rol := Some "chef" |}.

(** A store holding [fila1] and [fila2], answering newest first; a user
    signed in; inserts and deletes succeed. *)
Definition backend : Backend :=
  {| sesion := Some ana;
     select_resp := λ _, Resuelve (Some [fila2; fila1]) None;
     insert_error := None;
     delete_error := None |}.

(** Nobody signed in. *)
Definition backend_sin_sesion : Backend :=
  {| sesion := None;
     select_resp := λ _, Resuelve (Some [fila2; fila1]) None;
     insert_error := None;
     delete_error := None |}.

(** The store is down. *)
Definition backend_caido : Backend :=
  {| sesion := Some ana;
     select_resp := λ _, Rechaza "Network request failed";
     insert_error := Some "Network request failed";
     delete_error := Some "Network request failed" |}.

Definition luis_escribe : TypingEvent :=
  {| te_usuario_id := "u-luis"; te_email := Some "luis@recetas.app";
     te_escribiendo := true |}.

(** A sender whose identifier is ["__proto__"] types, and stops. *)
Definition proto_escribe : TypingEvent :=
  {| te_usuario_id := proto; te_email := None; te_escribiendo := true |}.

Definition proto_para : TypingEvent :=
  {| te_usuario_id := proto; te_email := None; te_escribiendo := false |}.

(** The order of ISO-8601 timestamps of one format. *)
Definition antes (a b : string) : Prop := String.ltb a b = true.

(** Luis is typing. *)
Definition con_luis : Estado := paso backend (ATyping luis_escribe) inicial.

(** The local user touched the keyboard 10ms ago. *)
Definition tecleando : Estado :=
  paso backend (AEsperar 10) (paso backend ANotifyTyping inicial).

End Ejemplos.
(* ===================================================================== *)
(** * Message stream: history and live inserts *)
(* ===================================================================== *)

Lemma existsb_m_id (x : string) (l : list Mensaje) :
  existsb (λ m, String.eqb (m_id m) x) l = true ↔ x ∈ m_id <$> l.
Proof.
  induction l as [|m l IH]; simpl.
  - split; [done | by intros ?%elem_of_nil].
  - rewrite orb_true_iff, IH, elem_of_cons, String.eqb_eq.
    split; (intros [H|H]; [left | right]); done.
Qed.

Lemma agregarSiNuevo_NoDup prev m :
  NoDup (m_id <$> prev) → NoDup (m_id <$> UseChat.agregarSiNuevo prev m).
Proof.
  intros Hnd. unfold UseChat.agregarSiNuevo.
  destruct (existsb _ prev) eqn:E; [done|].
  rewrite fmap_app. apply NoDup_app. split_and!; [done | | apply NoDup_singleton].
  intros x Hx [->|[]%elem_of_nil]%elem_of_cons.
  apply existsb_m_id in Hx. congruence.
Qed.

(** The live callback only ever appends: what is displayed stays where it
    is. *)
Lemma agregarSiNuevo_prefix prev m : prev `prefix_of` UseChat.agregarSiNuevo prev m.
Proof.
  unfold UseChat.agregarSiNuevo. destruct (existsb _ prev); [done|].
  by apply prefix_app_r.
Qed.

Lemma formatear_id (l : list Fila) : m_id <$> (ChatUseCase.formatear <$> l) = f_id <$> l.
Proof. by rewrite <- list_fmap_compose. Qed.

Lemma formatear_created_at (l : list Fila) :
  m_created_at <$> (ChatUseCase.formatear <$> l) = f_created_at <$> l.
Proof. by rewrite <- list_fmap_compose. Qed.

(** ** The event loop leaves the messages alone *)

(** Whatever holds before the loop runs and survives each firing holds
    when the loop stops. *)
Lemma correr_timers_inv be (P : Estado → Prop) hasta :
  (∀ st t, P st → proximo hasta (pendientes st) = Some t → P (disparar be t st)) →
  ∀ n st, P st → P (correr_timers be n hasta st).
Proof.
  intros Hpaso n. induction n as [|n IH]; intros st HP; simpl; [done|].
  destruct (proximo hasta (pendientes st)) as [t|] eqn:E; [|done].
  apply IH. by apply Hpaso.
Qed.

Lemma setTyping_mensajes be b st :
  mensajes (ChatUseCase.setTyping be b st) = mensajes st.
Proof. unfold ChatUseCase.setTyping. by destruct (sesion be). Qed.

Lemma disparar_mensajes be t st : mensajes (disparar be t st) = mensajes st.
Proof.
  unfold disparar, UseChat.ejecutar. destruct (t_cb t); simpl; [|done].
  by rewrite setTyping_mensajes.
Qed.

Lemma avanzar_mensajes be dt st : mensajes (avanzar be dt st) = mensajes st.
Proof.
  unfold avanzar. simpl.
  apply (correr_timers_inv be (λ s, mensajes s = mensajes st)); [|done].
  intros s t Hs _. by rewrite disparar_mensajes.
Qed.

Lemma enviarMensaje_mensajes be contenido st :
  mensajes (UseChat.enviarMensaje be contenido st).2 = mensajes st.
Proof.
  unfold UseChat.enviarMensaje, ChatUseCase.enviarMensaje.
  destruct (es_vacia _); [done|].
  destruct (sesion be) as [u|] eqn:Hs; [destruct (insert_error be)|];
    simpl; by rewrite setTyping_mensajes.
Qed.

Lemma notifyTyping_mensajes be st :
  mensajes (UseChat.notifyTyping be st) = mensajes st.
Proof.
  unfold UseChat.notifyTyping.
  destruct (typingTimeoutRef _); simpl; by rewrite setTyping_mensajes.
Qed.

(** Reading the table and clearing what was read comes to clearing the
    handle the table owns for the key, if any: an inherited member is
    truthy, but [clearTimeout] and [delete] do nothing with it. *)
Lemma alTyping_campos evento st :
  let u := te_usuario_id evento in
  let st' := UseChat.alTyping evento st in
  let base := match typingTimers st !! u with
              | Some h => filter (λ t, t_id t ≠ h) (pendientes st)
              | None => pendientes st
              end in
  mensajes st' = mensajes st ∧ red st' = red st ∧ ahora st' = ahora st ∧
  disparados st' = disparados st ∧ typingTimeoutRef st' = typingTimeoutRef st ∧
  if te_escribiendo evento then
    pendientes st' = base ++ [{| t_id := prox_timer st; t_vence := ahora st + 3000;
                                 t_cb := CbExpirar u |}] ∧
    prox_timer st' = S (prox_timer st) ∧
    typingTimers st' = asignar_propiedad u (prox_timer st) (typingTimers st) ∧
    typingUsers st' = UseChat.agregarTypingUser u (te_email evento) (typingUsers st)
  else
    pendientes st' = base ∧
    prox_timer st' = prox_timer st ∧
    typingTimers st' = delete u (typingTimers st) ∧
    typingUsers st' = UseChat.quitarTypingUser u (typingUsers st).
Proof.
  unfold UseChat.alTyping, leer_propiedad, borrar_propiedad.
  destruct evento as [u e b]. cbn [te_usuario_id te_escribiendo te_email].
  destruct b, (typingTimers st !! u) as [h|] eqn:E;
    cbn [es_verdadero clearTimeout_valor];
    try destruct (bool_decide (u ∈ heredadas));
    cbn -[Nat.add UseChat.quitarTypingUser UseChat.agregarTypingUser
          asignar_propiedad];
    rewrite ?delete_id by done; done.
Qed.

Lemma alTyping_mensajes evento st :
  mensajes (UseChat.alTyping evento st) = mensajes st.
Proof. apply alTyping_campos. Qed.

Lemma obtenerMensajes_ids be limite st :
  (∀ data, select_resp be limite = Resuelve (Some data) None → NoDup (f_id <$> data)) →
  NoDup (m_id <$> (ChatUseCase.obtenerMensajes be limite st).1).
Proof.
  intros Hstore. unfold ChatUseCase.obtenerMensajes, ChatUseCase.obtenerMensajes_try.
  destruct (select_resp be limite) as [[data|] [e|]|e] eqn:E; simpl;
    try apply NoDup_nil_2.
  rewrite fmap_reverse, formatear_id, reverse_Permutation. by apply Hstore.
Qed.

Lemma paso_mensajes_NoDup be a st :
  (∀ n data, select_resp be n = Resuelve (Some data) None → NoDup (f_id <$> data)) →
  NoDup (m_id <$> mensajes st) → NoDup (m_id <$> mensajes (paso be a st)).
Proof.
  intros Hstore Hnd. destruct a as [|c|i| |fila|ev|dt]; cbn [paso].
  - unfold UseChat.cargarMensajes.
    pose proof (obtenerMensajes_ids be 50 (con_cargando true st) (Hstore 50)) as H.
    destruct (ChatUseCase.obtenerMensajes _ _ _) as [ms st2]. done.
  - by rewrite enviarMensaje_mensajes.
  - unfold UseChat.eliminarMensaje, ChatUseCase.eliminarMensaje.
    destruct (delete_error be); simpl; [done|].
    eapply sublist_NoDup; [done|]. apply fmap_sublist, sublist_filter.
  - by rewrite notifyTyping_mensajes.
  - by apply agregarSiNuevo_NoDup.
  - by rewrite alTyping_mensajes.
  - by rewrite avanzar_mensajes.
Qed.

(** C1. Whatever is delivered to the live callback, and however often, the
    displayed list holds each identifier at most once: the property holds
    from any list without duplicates (the empty first render, or a loaded
    history) and survives every action of the hook, live inserts, reloads
    of the history and deletions included, the store keeping identifiers
    unique within one response. *)
Theorem mensajes_sin_duplicados be (acciones : list Accion) (st : Estado) :
  (∀ n data, select_resp be n = Resuelve (Some data) None → NoDup (f_id <$> data)) →
  NoDup (m_id <$> mensajes st) →
  NoDup (m_id <$> mensajes (correr be acciones st)).
Proof.
  intros Hstore. revert st. unfold correr.
  induction acciones as [|a acciones IH]; intros st Hnd; simpl; [done|].
  apply IH. by apply paso_mensajes_NoDup.
Qed.

(** The same, read on the callback alone: delivering any rows to the live
    callback, repeated or already shown, never shows an identifier twice,
    and never moves what was shown. *)
Lemma inserts_sin_duplicados (hist nuevos : list Mensaje) :
  NoDup (m_id <$> hist) →
  NoDup (m_id <$> foldl UseChat.agregarSiNuevo hist nuevos) ∧
  hist `prefix_of` foldl UseChat.agregarSiNuevo hist nuevos.
Proof.
  revert hist. induction nuevos as [|m nuevos IH]; intros hist Hnd; simpl; [done|].
  destruct (IH _ (agregarSiNuevo_NoDup hist m Hnd)) as [H1 H2]. split; [done|].
  etrans; [apply agregarSiNuevo_prefix | done].
Qed.

(** ** History *)

Lemma StronglySorted_reverse {A} (R : relation A) (l : list A) :
  StronglySorted R l → StronglySorted (flip R) (reverse l).
Proof.
  induction 1 as [|x l Hs IH Hx]; [constructor|].
  rewrite reverse_cons. apply StronglySorted_app_2; [|done|repeat constructor].
  intros y z Hy ->%list_elem_of_singleton. rewrite elem_of_reverse in Hy.
  rewrite Forall_forall in Hx. by apply Hx.
Qed.

(** C7. When the store answers the query (newest first, at most [limite]
    rows), [obtenerMensajes] asks for exactly that query, returns the rows
    reversed, hence at most [limite] messages, ordered oldest to newest by
    the store's order on [created_at], whichever order [antes] that is. *)
Theorem historial_ordenado (antes : relation string) be limite st data :
  select_resp be limite = Resuelve (Some data) None →
  length data ≤ limite →
  StronglySorted (λ x y, antes (f_created_at y) (f_created_at x)) data →
  let '(ms, st') := ChatUseCase.obtenerMensajes be limite st in
  red st' = red st ++ [(ahora st, LlSelect false limite)] ∧
  ms = reverse (ChatUseCase.formatear <$> data) ∧
  length ms ≤ limite ∧
  StronglySorted (λ x y, antes (m_created_at x) (m_created_at y)) ms.
Proof.
  intros Hresp Hlen Hord.
  unfold ChatUseCase.obtenerMensajes, ChatUseCase.obtenerMensajes_try.
  rewrite Hresp. simpl. split_and!; [done..| |].
  - by rewrite length_reverse, length_fmap.
  - apply (StronglySorted_reverse (λ x y, antes (m_created_at y) (m_created_at x))).
    eapply StronglySorted_fmap; [|done]. done.
Qed.

(** The hook shows that list as it is. *)
Lemma cargarMensajes_ordenado be st data :
  select_resp be 50 = Resuelve (Some data) None →
  mensajes (UseChat.cargarMensajes be st) = reverse (ChatUseCase.formatear <$> data) ∧
  cargando (UseChat.cargarMensajes be st) = false.
Proof.
  intros Hresp.
  unfold UseChat.cargarMensajes, ChatUseCase.obtenerMensajes,
    ChatUseCase.obtenerMensajes_try.
  by rewrite Hresp.
Qed.

(** C9. When the store fails while the history is loaded, with an error in
    the response or a rejected request, [obtenerMensajes] returns the empty
    list: the error does not reach the caller. *)
Theorem historial_fallo_vacio be limite st :
  es_fallo (select_resp be limite) = true →
  (ChatUseCase.obtenerMensajes be limite st).1 = [].
Proof.
  intros Hf. unfold ChatUseCase.obtenerMensajes, ChatUseCase.obtenerMensajes_try.
  destruct (select_resp be _) as [data [e|]|e]; done.
Qed.

(** The hook then shows no message and stops loading. *)
Lemma cargarMensajes_fallo be st :
  es_fallo (select_resp be 50) = true →
  mensajes (UseChat.cargarMensajes be st) = [] ∧
  cargando (UseChat.cargarMensajes be st) = false.
Proof.
  intros Hf. unfold UseChat.cargarMensajes, ChatUseCase.obtenerMensajes,
    ChatUseCase.obtenerMensajes_try.
  destruct (select_resp be _) as [data [e|]|e]; done.
Qed.

(** ** Sending *)

Lemma quitar_inicio_nil s :
  quitar_inicio s = [] ↔ forallb es_espacio s = true.
Proof.
  induction s as [|c s IH]; simpl; [done|].
  destruct (es_espacio c); simpl; [done|]. split; [done|]. intros [=].
Qed.

Lemma quitar_inicio_cabeza s c r :
  quitar_inicio s = c :: r → es_espacio c = false.
Proof.
  induction s as [|d s IH]; simpl; [done|].
  destruct (es_espacio d) eqn:E; [done|]. by intros [= -> ->].
Qed.

Lemma quitar_inicio_ultimo s c :
  es_espacio c = false → quitar_inicio (s ++ [c]) ≠ [].
Proof.
  intros Hc. induction s as [|d s IH]; simpl.
  - by rewrite Hc.
  - by destruct (es_espacio d).
Qed.

(** [trim] leaves nothing exactly when every code unit is white space. *)
Lemma trim_nil s : trim s = [] ↔ forallb es_espacio s = true.
Proof.
  unfold trim. split.
  - intros H. apply quitar_inicio_nil.
    destruct (quitar_inicio s) as [|c r] eqn:E; [done|].
    apply (f_equal reverse) in H. rewrite reverse_involutive, reverse_nil in H.
    rewrite reverse_cons in H.
    destruct (quitar_inicio_ultimo (reverse r) c); [|done].
    by eapply quitar_inicio_cabeza.
  - intros H. apply quitar_inicio_nil in H. by rewrite H.
Qed.

(** C8. A body that trims to nothing is rejected by the hook with a
    validation failure, and the state, with the log of calls in it, is
    what it was: no insert, no call at all. *)
Theorem envio_vacio_rechazado be contenido st :
  trim contenido = [] →
  UseChat.enviarMensaje be contenido st =
    ({| success := false; error := Some "El mensaje está vacío" |}, st).
Proof. intros H. unfold UseChat.enviarMensaje. by rewrite H. Qed.

(** A body of white space only is such a body. *)
Lemma envio_espacios_rechazado be contenido st :
  forallb es_espacio contenido = true →
  success (UseChat.enviarMensaje be contenido st).1 = false ∧
  is_Some (error (UseChat.enviarMensaje be contenido st).1) ∧
  red (UseChat.enviarMensaje be contenido st).2 = red st.
Proof.
  intros H%trim_nil. unfold UseChat.enviarMensaje. by rewrite H.
Qed.

Lemma enviarMensaje_red be contenido st :
  red (UseChat.enviarMensaje be contenido st).2 =
    red st ++ ((ahora st,.) <$> llamadas_envio be contenido).
Proof.
  unfold UseChat.enviarMensaje, ChatUseCase.enviarMensaje, ChatUseCase.setTyping,
    llamadas_envio.
  destruct (es_vacia _); simpl; [by rewrite app_nil_r|].
  destruct (sesion be) as [u|]; [destruct (insert_error be)|]; simpl;
    by rewrite <- ?app_assoc.
Qed.

(* ===================================================================== *)
(** * Timers: the invariant of a mounted hook *)
(* ===================================================================== *)

(** ** Which timer fires next *)

Lemma proximo_Some hasta l t :
  proximo hasta l = Some t →
  t ∈ l ∧ t_vence t ≤ hasta ∧
  ∀ t', t' ∈ l → t_vence t' ≤ hasta → t_vence t ≤ t_vence t'.
Proof.
  revert t. induction l as [|x l IH]; intros t; simpl; [done|].
  destruct (Nat.leb_spec (t_vence x) hasta) as [Hx|Hx].
  - destruct (proximo hasta l) as [t1|] eqn:E.
    + destruct (IH t1 eq_refl) as (Hin & Hle & Hmin).
      destruct (Nat.ltb_spec (t_vence t1) (t_vence x)) as [Hlt|Hge]; intros [= <-].
      * split_and!; [by right | done |].
        intros t' [->|Ht']%elem_of_cons Hd; [lia | by apply Hmin].
      * split_and!; [by left | done |].
        intros t' [->|Ht']%elem_of_cons Hd; [lia|].
        specialize (Hmin t' Ht' Hd). lia.
    + intros [= <-]. split_and!; [by left | done |].
      intros t' [->|Ht']%elem_of_cons Hd; [lia|].
      clear IH. exfalso. revert E Ht' Hd. clear. induction l as [|y l IH]; simpl.
      * by intros _ ?%elem_of_nil.
      * destruct (Nat.leb_spec (t_vence y) hasta).
        { destruct (proximo hasta l) as [t1|]; [by destruct (_ <? _)|done]. }
        intros E [->|Ht']%elem_of_cons Hd; [lia | by apply IH].
  - intros E. destruct (IH t E) as (Hin & Hle & Hmin). split_and!; [by right|done|].
    intros t' [->|Ht']%elem_of_cons Hd; [lia | by apply Hmin].
Qed.

Lemma proximo_None hasta l :
  proximo hasta l = None ↔ ∀ t, t ∈ l → hasta < t_vence t.
Proof.
  induction l as [|x l IH]; simpl.
  - split; [by intros _ t ?%elem_of_nil | done].
  - destruct (Nat.leb_spec (t_vence x) hasta) as [Hx|Hx].
    + split.
      * destruct (proximo hasta l); [by destruct (_ <? _)|done].
      * intros H. specialize (H x (list_elem_of_here _ _)). lia.
    + rewrite IH. split.
      * intros H t [->|Ht]%elem_of_cons; [done | by apply H].
      * intros H t Ht. apply H. by right.
Qed.

(** ** What each step does to each field *)

Lemma setTyping_eq be b st :
  ChatUseCase.setTyping be b st =
    con_red (λ l, l ++ ((ahora st,.) <$> llamadas_typing be b)) st.
Proof.
  unfold ChatUseCase.setTyping, llamadas_typing, llamar, con_red.
  destruct (sesion be); simpl; [|done]. by rewrite <- app_assoc.
Qed.

Lemma disparar_pendientes be t st :
  pendientes (disparar be t st) = filter (λ x, t_id x ≠ t_id t) (pendientes st).
Proof.
  unfold disparar, UseChat.ejecutar. destruct (t_cb t); [|done].
  by rewrite setTyping_eq.
Qed.

Lemma disparar_prox_timer be t st : prox_timer (disparar be t st) = prox_timer st.
Proof.
  unfold disparar, UseChat.ejecutar. destruct (t_cb t); [|done].
  by rewrite setTyping_eq.
Qed.

Lemma disparar_disparados be t st :
  disparados (disparar be t st) = disparados st ++ [t_id t].
Proof.
  unfold disparar, UseChat.ejecutar. destruct (t_cb t); [|done].
  by rewrite setTyping_eq.
Qed.

Lemma disparar_ahora be t st :
  ahora (disparar be t st) = ahora st `max` t_vence t.
Proof.
  unfold disparar, UseChat.ejecutar. destruct (t_cb t); [|done].
  by rewrite setTyping_eq.
Qed.

(** ** Handles name timers *)

Lemma mismo_id (l : list Timer) t t' :
  NoDup (t_id <$> l) → t ∈ l → t' ∈ l → t_id t = t_id t' → t = t'.
Proof.
  induction l as [|x l IH]; [by intros _ ?%elem_of_nil|].
  rewrite fmap_cons, NoDup_cons.
  intros [Hx Hnd] [->|Ht]%elem_of_cons [->|Ht']%elem_of_cons Hid; [done| | |by apply IH].
  - destruct Hx. rewrite Hid. by apply list_elem_of_fmap_2.
  - destruct Hx. rewrite <- Hid. by apply list_elem_of_fmap_2.
Qed.

Lemma NoDup_ids_filter (P : Timer → Prop) `{!∀ t, Decision (P t)} l :
  NoDup (t_id <$> l) → NoDup (t_id <$> filter P l).
Proof. intros Hnd. eapply sublist_NoDup; [done|]. apply fmap_sublist, sublist_filter. Qed.

Lemma NoDup_ids_nuevo l h v cb :
  NoDup (t_id <$> l) → (∀ t, t ∈ l → t_id t < h) →
  NoDup (t_id <$> (l ++ [{| t_id := h; t_vence := v; t_cb := cb |}])).
Proof.
  intros Hnd Hlt. rewrite fmap_app. apply NoDup_app. split_and!; [done| |apply NoDup_singleton].
  intros x (t & -> & Ht)%list_elem_of_fmap Heq%list_elem_of_singleton.
  specialize (Hlt t Ht). simpl in Heq. lia.
Qed.

(** ** The typing-user list *)

Lemma existsb_tu_id (x : string) (l : list TypingUser) :
  existsb (λ u, String.eqb (tu_usuario_id u) x) l = true ↔ x ∈ tu_usuario_id <$> l.
Proof.
  induction l as [|u l IH]; simpl.
  - split; [done | by intros ?%elem_of_nil].
  - rewrite orb_true_iff, IH, elem_of_cons, String.eqb_eq.
    split; (intros [H|H]; [left | right]); done.
Qed.

Lemma agregarTypingUser_presente u e prev :
  u ∈ tu_usuario_id <$> prev → UseChat.agregarTypingUser u e prev = prev.
Proof.
  intros H%existsb_tu_id. unfold UseChat.agregarTypingUser. by rewrite H.
Qed.

Lemma elem_of_agregarTypingUser u e prev v :
  v ∈ tu_usuario_id <$> UseChat.agregarTypingUser u e prev ↔
  v = u ∨ v ∈ tu_usuario_id <$> prev.
Proof.
  unfold UseChat.agregarTypingUser.
  destruct (existsb _ prev) eqn:E.
  - apply existsb_tu_id in E. split; [by right | by intros [->|?]].
  - rewrite fmap_app, elem_of_app. simpl. rewrite list_elem_of_singleton.
    split; intros [?|?]; auto.
Qed.

Lemma agregarTypingUser_NoDup u e prev :
  NoDup (tu_usuario_id <$> prev) →
  NoDup (tu_usuario_id <$> UseChat.agregarTypingUser u e prev).
Proof.
  intros Hnd. unfold UseChat.agregarTypingUser.
  destruct (existsb _ prev) eqn:E; [done|].
  rewrite fmap_app. apply NoDup_app. split_and!; [done| |apply NoDup_singleton].
  intros x Hx Heq%list_elem_of_singleton. simpl in Heq. subst x.
  apply existsb_tu_id in Hx. congruence.
Qed.

Lemma elem_of_quitarTypingUser u prev v :
  v ∈ tu_usuario_id <$> UseChat.quitarTypingUser u prev ↔
  v ≠ u ∧ v ∈ tu_usuario_id <$> prev.
Proof.
  unfold UseChat.quitarTypingUser. rewrite !list_elem_of_fmap. split.
  - intros (x & -> & [Hx Hin]%list_elem_of_filter). eauto.
  - intros (Hne & x & -> & Hin). exists x. split; [done|].
    by apply list_elem_of_filter.
Qed.

Lemma quitarTypingUser_NoDup u prev :
  NoDup (tu_usuario_id <$> prev) →
  NoDup (tu_usuario_id <$> UseChat.quitarTypingUser u prev).
Proof.
  intros Hnd. eapply sublist_NoDup; [done|]. apply fmap_sublist, sublist_filter.
Qed.

(** ** The invariant holds at the first render and survives every step *)

Lemma Inv_inicial : Inv inicial.
Proof.
  constructor; cbn; unfold escribe; cbn;
    try (by intros ? ?%elem_of_nil); try done.
  - constructor.
  - by intros t u ?%elem_of_nil.
  - intros u _. rewrite lookup_empty. split; [by intros ?%elem_of_nil | by intros []].
  - by intros ?%elem_of_nil.
  - constructor.
Qed.

(** The invariant only reads the timer table, the two refs and the
    typing-user list. *)
Lemma Inv_marco st st' :
  pendientes st' = pendientes st →
  prox_timer st' = prox_timer st →
  disparados st' = disparados st →
  typingTimers st' = typingTimers st →
  typingTimeoutRef st' = typingTimeoutRef st →
  typingUsers st' = typingUsers st →
  Inv st → Inv st'.
Proof.
  intros E1 E2 E3 E4 E5 E6 [].
  constructor; unfold escribe in *; rewrite ?E1, ?E2, ?E3, ?E4, ?E5, ?E6; done.
Qed.

Lemma Inv_con_red f st : Inv st → Inv (con_red f st).
Proof. by apply Inv_marco. Qed.

Lemma Inv_con_ahora t st : Inv st → Inv (con_ahora t st).
Proof. by apply Inv_marco. Qed.

Lemma Inv_setTyping be b st : Inv st → Inv (ChatUseCase.setTyping be b st).
Proof. rewrite setTyping_eq. apply Inv_con_red. Qed.

(** Under the invariant, clearing by handle is clearing by closure: the
    handle in the table names the one timer that expires that sender, the
    handle in the ref the one timer that stops the local signal, and a
    pending timer is the only one with its closure.  Not so for the sender
    ["__proto__"], whose timers the table does not name. *)
Lemma filter_en (P Q : Timer → Prop) `{!∀ t, Decision (P t)} `{!∀ t, Decision (Q t)}
    (l : list Timer) :
  (∀ t, t ∈ l → P t ↔ Q t) → filter P l = filter Q l.
Proof.
  induction l as [|x l IH]; intros Heq; [done|].
  rewrite !filter_cons.
  rewrite IH by (intros t Ht; apply Heq; by right).
  destruct (decide (P x)) as [HP|HP], (decide (Q x)) as [HQ|HQ]; try done.
  - destruct HQ. apply Heq; [by left | done].
  - destruct HP. apply Heq; [by left | done].
Qed.

Lemma filter_todos (P : Timer → Prop) `{!∀ t, Decision (P t)} (l : list Timer) :
  (∀ t, t ∈ l → P t) → filter P l = l.
Proof.
  induction l as [|x l IH]; intros HP; [done|].
  rewrite filter_cons_True by (apply HP; by left).
  f_equal. apply IH. intros t Ht. apply HP. by right.
Qed.

Lemma tabla_no_proto st u h : Inv st → typingTimers st !! u = Some h → u ≠ proto.
Proof. intros HI Hh ->. rewrite (inv_proto _ HI) in Hh. done. Qed.

Lemma quitar_por_tabla st u h :
  Inv st → typingTimers st !! u = Some h →
  filter (λ t, t_id t ≠ h) (pendientes st) =
  filter (λ t, t_cb t ≠ CbExpirar u) (pendientes st).
Proof.
  intros HI Hh. apply filter_en. intros t Ht.
  destruct (inv_tabla _ HI u h Hh) as (t0 & Ht0 & Hid & Hcb).
  split; intros Hne Heq; apply Hne.
  - pose proof (inv_expirar _ HI t u Ht Heq (tabla_no_proto _ _ _ HI Hh)). congruence.
  - assert (t = t0) as -> by (eapply mismo_id; eauto using inv_ids_nodup; congruence).
    done.
Qed.

Lemma sin_timer_en_tabla st u :
  Inv st → u ≠ proto → typingTimers st !! u = None →
  pendientes st = filter (λ t, t_cb t ≠ CbExpirar u) (pendientes st).
Proof.
  intros HI Hu Hh. symmetry. apply filter_todos. intros t Ht Hcb.
  pose proof (inv_expirar _ HI t u Ht Hcb Hu). congruence.
Qed.

Lemma quitar_por_ref st h :
  Inv st → typingTimeoutRef st = Some h →
  filter (λ t, t_id t ≠ h) (pendientes st) =
  filter (λ t, t_cb t ≠ CbDejarDeEscribir) (pendientes st).
Proof.
  intros HI Hh. apply filter_en. intros t Ht.
  split; intros Hne Heq; apply Hne.
  - pose proof (inv_dejar _ HI t Ht Heq). congruence.
  - by apply (inv_ref _ HI h Hh).
Qed.

Lemma sin_timer_en_ref st :
  Inv st → typingTimeoutRef st = None →
  pendientes st = filter (λ t, t_cb t ≠ CbDejarDeEscribir) (pendientes st).
Proof.
  intros HI Hh. symmetry. apply filter_todos. intros t Ht Hcb.
  pose proof (inv_dejar _ HI t Ht Hcb). congruence.
Qed.

(** Tracked timers are alone with their closure. *)
Lemma mismo_cb st t x :
  Inv st → t ∈ pendientes st → x ∈ pendientes st →
  t_cb t ≠ CbExpirar proto → t_cb x = t_cb t → t_id x = t_id t.
Proof.
  intros HI Ht Hx Hp Heq. destruct (t_cb t) as [|u] eqn:Hcb.
  - pose proof (inv_dejar _ HI t Ht Hcb). pose proof (inv_dejar _ HI x Hx Heq).
    congruence.
  - assert (u ≠ proto) as Hu by congruence.
    pose proof (inv_expirar _ HI t u Ht Hcb Hu).
    pose proof (inv_expirar _ HI x u Hx Heq Hu). congruence.
Qed.

Lemma quitar_por_disparo st t :
  Inv st → t ∈ pendientes st → t_cb t ≠ CbExpirar proto →
  filter (λ x, t_id x ≠ t_id t) (pendientes st) =
  filter (λ x, t_cb x ≠ t_cb t) (pendientes st).
Proof.
  intros HI Ht Hp. apply filter_en. intros x Hx.
  split; intros Hne Heq; apply Hne.
  - by eapply mismo_cb.
  - assert (x = t) as -> by (eapply mismo_id; eauto using inv_ids_nodup). done.
Qed.

(** The pending timers once the typing callback has cleared the sender's. *)
Lemma alTyping_limpia st u :
  Inv st → u ≠ proto →
  match typingTimers st !! u with
  | Some h => filter (λ t, t_id t ≠ h) (pendientes st)
  | None => pendientes st
  end = filter (λ t, t_cb t ≠ CbExpirar u) (pendientes st).
Proof.
  intros HI Hu. destruct (typingTimers st !! u) as [h|] eqn:E.
  - by apply quitar_por_tabla.
  - by apply sin_timer_en_tabla.
Qed.

(** For ["__proto__"] the callback clears nothing. *)
Lemma alTyping_limpia_proto st :
  Inv st →
  match typingTimers st !! proto with
  | Some h => filter (λ t, t_id t ≠ h) (pendientes st)
  | None => pendientes st
  end = pendientes st.
Proof. intros HI. by rewrite (inv_proto _ HI). Qed.

(** The two shapes a step takes on the timers: timers of one closure go
    (cleared or fired), or they go and a fresh one takes their place.  All
    the timers of the closure go, except for the sender ["__proto__"]. *)
Lemma Inv_quitar st st' c (P : Timer → Prop) `{!∀ t, Decision (P t)} :
  Inv st →
  pendientes st' = filter P (pendientes st) →
  (∀ t, t ∈ pendientes st → ¬ P t → t_cb t = c) →
  (c ≠ CbExpirar proto → ∀ t, t ∈ pendientes st → t_cb t = c → ¬ P t) →
  prox_timer st' = prox_timer st →
  (∀ h, h ∈ disparados st' →
        h ∈ disparados st ∨ ∃ t, t ∈ pendientes st ∧ ¬ P t ∧ t_id t = h) →
  match c with
  | CbDejarDeEscribir =>
      typingTimeoutRef st' = None ∧
      typingTimers st' = typingTimers st ∧
      typingUsers st' = typingUsers st
  | CbExpirar u =>
      typingTimeoutRef st' = typingTimeoutRef st ∧
      typingTimers st' = delete u (typingTimers st) ∧
      typingUsers st' = UseChat.quitarTypingUser u (typingUsers st)
  end →
  Inv st'.
Proof.
  intros HI Hp Hsolo Htodos Hpx Hd Hc.
  assert (Hin : ∀ t, t ∈ pendientes st' ↔ t ∈ pendientes st ∧ P t).
  { intros t. rewrite Hp, list_elem_of_filter. tauto. }
  assert (Hqueda : ∀ t, t ∈ pendientes st → t_cb t ≠ c → t ∈ pendientes st').
  { intros t Ht Hne. apply Hin. split; [done|].
    destruct (decide (P t)) as [|Hn]; [done|]. by destruct (Hne (Hsolo t Ht Hn)). }
  constructor.
  - rewrite Hp. apply NoDup_ids_filter, HI.
  - intros t [Ht _]%Hin. rewrite Hpx. by apply HI.
  - intros h [Hh|(t & Ht & _ & <-)]%Hd; rewrite Hpx.
    + by apply (inv_disp_lt _ HI).
    + by apply (inv_ids_lt _ HI).
  - intros t [Ht HP]%Hin [Hh|(t0 & Ht0 & Hn0 & Hid)]%Hd.
    + by apply (inv_disp_pend _ HI t).
    + assert (t0 = t) as -> by (eapply mismo_id; eauto using inv_ids_nodup).
      done.
  - intros t v [Ht HP]%Hin Hcb Hv. destruct c as [|u].
    + destruct Hc as (_ & -> & _). by apply HI.
    + destruct Hc as (_ & -> & _).
      destruct (decide (u = v)) as [->|Hne].
      * destruct (Htodos ltac:(congruence) t Ht Hcb HP).
      * rewrite lookup_delete_ne by done. by apply HI.
  - intros v h Hv. destruct c as [|u].
    + destruct Hc as (_ & Ht & _). rewrite Ht in Hv.
      destruct (inv_tabla _ HI v h Hv) as (t & Hin' & Hid & Hcb).
      exists t. split_and!; [|done..]. apply Hqueda; [done|congruence].
    + destruct Hc as (_ & Ht & _). rewrite Ht in Hv.
      apply lookup_delete_Some in Hv as [Hne Hv].
      destruct (inv_tabla _ HI v h Hv) as (t & Hin' & Hid & Hcb).
      exists t. split_and!; [|done..]. apply Hqueda; [done|congruence].
  - destruct c as [|u].
    + destruct Hc as (_ & -> & _). apply HI.
    + destruct Hc as (_ & -> & _). destruct (decide (u = proto)) as [->|Hne].
      * apply lookup_delete_eq.
      * rewrite lookup_delete_ne by done. apply HI.
  - intros t [Ht HP]%Hin Hcb. destruct c as [|u].
    + destruct (Htodos ltac:(done) t Ht Hcb HP).
    + destruct Hc as (-> & _). by apply HI.
  - intros h Hh. destruct c as [|u].
    + destruct Hc as (Hr & _). congruence.
    + destruct Hc as (Hr & _). rewrite Hr in Hh.
      destruct (inv_ref _ HI h Hh) as [Hlt Hcb]. split; [by rewrite Hpx|].
      intros t [Ht _]%Hin. by apply Hcb.
  - intros v Hv. unfold escribe. destruct c as [|u].
    + destruct Hc as (_ & -> & ->). by apply HI.
    + destruct Hc as (_ & -> & ->).
      rewrite elem_of_quitarTypingUser, lookup_delete_is_Some.
      pose proof (inv_users _ HI v Hv) as Hu. unfold escribe in Hu.
      rewrite Hu. split; intros [??]; split; congruence.
  - unfold escribe. destruct c as [|u].
    + destruct Hc as (_ & _ & ->). intros He.
      destruct (inv_users_proto _ HI He) as (t & Ht & Hcb).
      exists t. split; [|done]. apply Hqueda; [done|congruence].
    + destruct Hc as (_ & _ & ->). rewrite elem_of_quitarTypingUser.
      intros [Hne He]. destruct (inv_users_proto _ HI He) as (t & Ht & Hcb).
      exists t. split; [|done]. apply Hqueda; [done|congruence].
  - destruct c as [|u].
    + destruct Hc as (_ & _ & ->). apply HI.
    + destruct Hc as (_ & _ & ->). apply quitarTypingUser_NoDup, HI.
Qed.

Lemma lookup_asignar_propiedad u h (o : gmap string nat) v :
  asignar_propiedad u h o !! v =
    if bool_decide (u ≠ proto ∧ u = v) then Some h else o !! v.
Proof.
  unfold asignar_propiedad.
  destruct (bool_decide_reflect (u = proto)) as [->|Hne].
  - rewrite bool_decide_eq_false_2; [done|]. by intros [? _].
  - destruct (decide (u = v)) as [->|Huv].
    + rewrite bool_decide_eq_true_2 by done. apply lookup_insert_eq.
    + rewrite bool_decide_eq_false_2 by (by intros [_ ?]).
      by apply lookup_insert_ne.
Qed.

Lemma Inv_reponer st st' c (P : Timer → Prop) `{!∀ t, Decision (P t)} v e :
  Inv st →
  pendientes st' =
    filter P (pendientes st) ++
    [{| t_id := prox_timer st; t_vence := v; t_cb := c |}] →
  (∀ t, t ∈ pendientes st → ¬ P t → t_cb t = c) →
  (c ≠ CbExpirar proto → ∀ t, t ∈ pendientes st → t_cb t = c → ¬ P t) →
  prox_timer st' = S (prox_timer st) →
  disparados st' = disparados st →
  match c with
  | CbDejarDeEscribir =>
      typingTimeoutRef st' = Some (prox_timer st) ∧
      typingTimers st' = typingTimers st ∧
      typingUsers st' = typingUsers st
  | CbExpirar u =>
      typingTimeoutRef st' = typingTimeoutRef st ∧
      typingTimers st' = asignar_propiedad u (prox_timer st) (typingTimers st) ∧
      typingUsers st' = UseChat.agregarTypingUser u e (typingUsers st)
  end →
  Inv st'.
Proof.
  intros HI Hp Hsolo Htodos Hpx Hd Hc.
  set (nuevo := {| t_id := prox_timer st; t_vence := v; t_cb := c |}) in *.
  assert (Hin : ∀ t, t ∈ pendientes st' ↔
                     (t ∈ pendientes st ∧ P t) ∨ t = nuevo).
  { intros t. rewrite Hp, elem_of_app, list_elem_of_filter, list_elem_of_singleton.
    tauto. }
  assert (Hqueda : ∀ t, t ∈ pendientes st → t_cb t ≠ c → t ∈ pendientes st').
  { intros t Ht Hne. apply Hin. left. split; [done|].
    destruct (decide (P t)) as [|Hn]; [done|]. by destruct (Hne (Hsolo t Ht Hn)). }
  assert (Hviejo : ∀ t, t ∈ pendientes st → t_id t ≠ prox_timer st).
  { intros t Ht. pose proof (inv_ids_lt _ HI t Ht). lia. }
  constructor.
  - rewrite Hp. apply NoDup_ids_nuevo.
    + apply NoDup_ids_filter, HI.
    + intros t [_ Ht]%list_elem_of_filter. by apply HI.
  - intros t [[Ht _]| ->]%Hin; rewrite Hpx.
    + pose proof (inv_ids_lt _ HI t Ht). lia.
    + cbn. lia.
  - intros h Hh. rewrite Hd in Hh. rewrite Hpx.
    pose proof (inv_disp_lt _ HI h Hh). lia.
  - intros t [[Ht _]| ->]%Hin; rewrite Hd.
    + by apply HI.
    + cbn. intros Hh. pose proof (inv_disp_lt _ HI _ Hh). lia.
  - intros t w [[Ht HP]| ->]%Hin Hcb Hw.
    + destruct c as [|u].
      * destruct Hc as (_ & -> & _). by apply HI.
      * destruct Hc as (_ & -> & _). rewrite lookup_asignar_propiedad.
        destruct (decide (u = w)) as [->|Hne].
        { destruct (Htodos ltac:(congruence) t Ht Hcb HP). }
        rewrite bool_decide_eq_false_2 by (by intros [_ ?]). by apply HI.
    + cbn in Hcb. subst c. destruct Hc as (_ & -> & _).
      rewrite lookup_asignar_propiedad. by rewrite bool_decide_eq_true_2.
  - intros w h Hw. destruct c as [|u].
    + destruct Hc as (_ & Ht & _). rewrite Ht in Hw.
      destruct (inv_tabla _ HI w h Hw) as (t & Hin' & Hid & Hcb).
      exists t. split_and!; [|done..]. apply Hqueda; [done|congruence].
    + destruct Hc as (_ & Ht & _). rewrite Ht, lookup_asignar_propiedad in Hw.
      destruct (bool_decide_reflect (u ≠ proto ∧ u = w)) as [[Hu <-]|Hno].
      * injection Hw as <-. exists nuevo. split_and!; [|done..]. apply Hin. by right.
      * destruct (inv_tabla _ HI w h Hw) as (t & Hin' & Hid & Hcb).
        exists t. split_and!; [|done..]. apply Hqueda; [done|].
        rewrite Hcb. intros [= ->]. apply Hno. split; [|done].
        by eapply tabla_no_proto.
  - destruct c as [|u].
    + destruct Hc as (_ & -> & _). apply HI.
    + destruct Hc as (_ & -> & _). rewrite lookup_asignar_propiedad.
      rewrite bool_decide_eq_false_2 by (intros [? ?]; congruence). apply HI.
  - intros t [[Ht HP]| ->]%Hin Hcb.
    + destruct c as [|u].
      * destruct (Htodos ltac:(done) t Ht Hcb HP).
      * destruct Hc as (-> & _). by apply HI.
    + cbn in Hcb. subst c. by destruct Hc as (-> & _).
  - intros h Hh. destruct c as [|u].
    + destruct Hc as (Hr & _). rewrite Hr in Hh. injection Hh as <-.
      split; [lia|]. intros t [[Ht _]| ->]%Hin Hid; [|done].
      by destruct (Hviejo t Ht).
    + destruct Hc as (Hr & _). rewrite Hr in Hh.
      destruct (inv_ref _ HI h Hh) as [Hlt Hcb]. split; [lia|].
      intros t [[Ht _]| ->]%Hin Hid; [by apply Hcb|]. cbn in Hid. lia.
  - intros w Hw. unfold escribe. destruct c as [|u].
    + destruct Hc as (_ & -> & ->). by apply HI.
    + destruct Hc as (_ & -> & ->).
      rewrite elem_of_agregarTypingUser.
      pose proof (inv_users _ HI w Hw) as Hu. unfold escribe in Hu.
      rewrite Hu, lookup_asignar_propiedad.
      destruct (bool_decide_reflect (u ≠ proto ∧ u = w)) as [[_ <-]|Hno].
      * split; [by eexists | by left].
      * split; [intros [->|?]; [|done] | by right].
        destruct Hno. split; [done|done].
  - unfold escribe. destruct c as [|u].
    + destruct Hc as (_ & _ & ->). intros He.
      destruct (inv_users_proto _ HI He) as (t & Ht & Hcb).
      exists t. split; [|done]. apply Hqueda; [done|congruence].
    + destruct Hc as (_ & _ & ->). rewrite elem_of_agregarTypingUser.
      destruct (decide (u = proto)) as [->|Hne].
      * intros _. exists nuevo. split; [apply Hin; by right | done].
      * intros [?|He]; [congruence|].
        destruct (inv_users_proto _ HI He) as (t & Ht & Hcb).
        exists t. split; [|done]. apply Hqueda; [done|congruence].
  - destruct c as [|u].
    + destruct Hc as (_ & _ & ->). apply HI.
    + destruct Hc as (_ & _ & ->). apply agregarTypingUser_NoDup, HI.
Qed.

(** What the typing callback clears, as a filter. *)
Lemma alTyping_base st u :
  Inv st →
  ∃ (P : Timer → Prop) (_ : ∀ t, Decision (P t)),
    match typingTimers st !! u with
    | Some h => filter (λ t, t_id t ≠ h) (pendientes st)
    | None => pendientes st
    end = filter P (pendientes st) ∧
    (∀ t, t ∈ pendientes st → ¬ P t → t_cb t = CbExpirar u) ∧
    (CbExpirar u ≠ CbExpirar proto →
     ∀ t, t ∈ pendientes st → t_cb t = CbExpirar u → ¬ P t).
Proof.
  intros HI. destruct (typingTimers st !! u) as [h|] eqn:E.
  - exists (λ t, t_id t ≠ h), _. split_and!; [done| |].
    + intros t Ht Hn. destruct (inv_tabla _ HI u h E) as (t0 & Ht0 & Hid & Hcb).
      assert (t = t0) as ->; [|done].
      eapply mismo_id; eauto using inv_ids_nodup.
      destruct (decide (t_id t = h)); [congruence|done].
    + intros Hp t Ht Hcb Hn.
      pose proof (inv_expirar _ HI t u Ht Hcb ltac:(congruence)). congruence.
  - exists (λ _, True), _. split_and!; [|done|].
    + symmetry. by apply filter_todos.
    + intros Hp t Ht Hcb _.
      pose proof (inv_expirar _ HI t u Ht Hcb ltac:(congruence)). congruence.
Qed.

Lemma Inv_alTyping evento st : Inv st → Inv (UseChat.alTyping evento st).
Proof.
  intros HI.
  destruct (alTyping_campos evento st) as (_ & _ & _ & Hd & Hr & Hc).
  destruct (alTyping_base st (te_usuario_id evento) HI) as (P & HP & Hb & Hsolo & Htodos).
  rewrite Hb in Hc.
  destruct (te_escribiendo evento).
  - destruct Hc as (Hp & Hpx & Ht & Hu).
    by apply (Inv_reponer st _ (CbExpirar (te_usuario_id evento)) P
                (ahora st + 3000) (te_email evento) HI).
  - destruct Hc as (Hp & Hpx & Ht & Hu).
    apply (Inv_quitar st _ (CbExpirar (te_usuario_id evento)) P HI); try done.
    intros h Hh. left. by rewrite <- Hd.
Qed.

Lemma Inv_notifyTyping be st : Inv st → Inv (UseChat.notifyTyping be st).
Proof.
  intros HI. unfold UseChat.notifyTyping. rewrite setTyping_eq.
  apply (Inv_reponer st _ CbDejarDeEscribir (λ t, t_cb t ≠ CbDejarDeEscribir)
           (ahora st + 1500) None HI);
    cbn -[Nat.add]; destruct (typingTimeoutRef st) as [h|] eqn:E;
    cbn -[Nat.add]; try done.
  - by rewrite (quitar_por_ref st h).
  - by rewrite <- (sin_timer_en_ref st).
  - intros t _ Hn. destruct (decide (t_cb t = CbDejarDeEscribir)); [done|].
    by destruct Hn.
  - intros t _ Hn. destruct (decide (t_cb t = CbDejarDeEscribir)); [done|].
    by destruct Hn.
  - intros _ t _ Hcb Hn. done.
  - intros _ t _ Hcb Hn. done.
Qed.

Lemma Inv_disparar be t st :
  Inv st → t ∈ pendientes st → Inv (disparar be t st).
Proof.
  intros HI Ht. apply (Inv_quitar st _ (t_cb t) (λ x, t_id x ≠ t_id t) HI).
  - apply disparar_pendientes.
  - intros x Hx Hn. assert (x = t) as ->; [|done].
    eapply mismo_id; eauto using inv_ids_nodup.
    destruct (decide (t_id x = t_id t)); [done|by destruct Hn].
  - intros Hp x Hx Hcb Hn. apply Hn. by eapply mismo_cb.
  - apply disparar_prox_timer.
  - intros h. rewrite disparar_disparados, elem_of_app, list_elem_of_singleton.
    intros [?| ->]; [by left|]. right. exists t. split_and!; [done| |done].
    by intros Hn.
  - unfold disparar, UseChat.ejecutar, borrar_propiedad. destruct (t_cb t); [|done].
    by rewrite setTyping_eq.
Qed.

Lemma Inv_correr_timers be n hasta st :
  Inv st → Inv (correr_timers be n hasta st).
Proof.
  apply (correr_timers_inv be Inv). intros s t Hs (Ht & _)%proximo_Some.
  by apply Inv_disparar.
Qed.

Lemma Inv_avanzar be dt st : Inv st → Inv (avanzar be dt st).
Proof. intros HI. by apply Inv_con_ahora, Inv_correr_timers. Qed.

Lemma Inv_enviarMensaje be contenido st :
  Inv st → Inv (UseChat.enviarMensaje be contenido st).2.
Proof.
  unfold UseChat.enviarMensaje, ChatUseCase.enviarMensaje.
  destruct (es_vacia _); [done|].
  destruct (sesion be) as [u|]; [destruct (insert_error be)|]; simpl;
    rewrite setTyping_eq; by apply Inv_marco.
Qed.

Lemma Inv_paso be a st : Inv st → Inv (paso be a st).
Proof.
  intros HI. destruct a as [|c|i| |fila|ev|dt]; cbn [paso].
  - unfold UseChat.cargarMensajes, ChatUseCase.obtenerMensajes.
    destruct (ChatUseCase.obtenerMensajes_try _); by apply (Inv_marco st).
  - by apply Inv_enviarMensaje.
  - unfold UseChat.eliminarMensaje, ChatUseCase.eliminarMensaje.
    destruct (delete_error be); by apply (Inv_marco st).
  - by apply Inv_notifyTyping.
  - by apply (Inv_marco st).
  - by apply Inv_alTyping.
  - by apply Inv_avanzar.
Qed.

(** Every state of a mounted hook satisfies the invariant. *)
Lemma alcanzable_Inv st : alcanzable st → Inv st.
Proof. induction 1; [apply Inv_inicial | by apply Inv_paso]. Qed.

Lemma alcanzable_correr be acciones st :
  alcanzable st → alcanzable (correr be acciones st).
Proof.
  revert st. unfold correr. induction acciones as [|a l IH]; intros st H; simpl; [done|].
  apply IH. by constructor.
Qed.

(* ===================================================================== *)
(** * The clock *)
(* ===================================================================== *)

Lemma correr_timers_completo be hasta n st :
  length (pendientes st) ≤ n →
  proximo hasta (pendientes (correr_timers be n hasta st)) = None.
Proof.
  revert st. induction n as [|n IH]; intros st Hlen; simpl.
  - destruct (pendientes st); [done | simpl in Hlen; lia].
  - destruct (proximo hasta (pendientes st)) as [t|] eqn:E; [|done].
    apply IH. rewrite disparar_pendientes.
    apply proximo_Some in E as (Ht & _).
    pose proof (length_filter_lt (λ x, t_id x ≠ t_id t) (pendientes st) t Ht) as Hlt.
    cut (length (filter (λ x, t_id x ≠ t_id t) (pendientes st)) < length (pendientes st)).
    { lia. }
    apply Hlt. by intros H.
Qed.

(** When [avanzar] returns, the clock has moved by [dt] and every timer
    that was due has fired: those left are due strictly later. *)
Lemma avanzar_ahora be dt st : ahora (avanzar be dt st) = ahora st + dt.
Proof. done. Qed.

Lemma avanzar_futuros be dt st : futuros (avanzar be dt st).
Proof.
  intros t Ht. unfold avanzar in *. simpl in *.
  pose proof (correr_timers_completo be (ahora st + dt) _ st (le_n _)) as Hc.
  rewrite proximo_None in Hc. by apply Hc.
Qed.

Lemma correr_timers_sublista be n hasta st :
  pendientes (correr_timers be n hasta st) `sublist_of` pendientes st.
Proof.
  apply (correr_timers_inv be (λ s, pendientes s `sublist_of` pendientes st)); [|done].
  intros s t Hs _. rewrite disparar_pendientes.
  etrans; [apply sublist_filter | done].
Qed.

Lemma avanzar_sublista be dt st :
  pendientes (avanzar be dt st) `sublist_of` pendientes st.
Proof. apply correr_timers_sublista. Qed.

Lemma notifyTyping_pendientes be st :
  pendientes (UseChat.notifyTyping be st) =
    match typingTimeoutRef st with
    | Some h => filter (λ t, t_id t ≠ h) (pendientes st)
    | None => pendientes st
    end ++ [{| t_id := prox_timer st; t_vence := ahora st + 1500;
               t_cb := CbDejarDeEscribir |}].
Proof.
  unfold UseChat.notifyTyping. rewrite setTyping_eq.
  by destruct (typingTimeoutRef st) eqn:E; simpl; rewrite E.
Qed.

Lemma notifyTyping_ahora be st : ahora (UseChat.notifyTyping be st) = ahora st.
Proof.
  unfold UseChat.notifyTyping. rewrite setTyping_eq.
  by destruct (typingTimeoutRef st) eqn:E; simpl; rewrite E.
Qed.

Lemma futuros_notifyTyping be st : futuros st → futuros (UseChat.notifyTyping be st).
Proof.
  intros Hf t. rewrite notifyTyping_pendientes, notifyTyping_ahora.
  rewrite elem_of_app, list_elem_of_singleton.
  intros [Ht| ->]; [|simpl; lia].
  apply Hf. destruct (typingTimeoutRef st); [|done].
  by apply list_elem_of_filter in Ht as [_ ?].
Qed.

Lemma futuros_alTyping evento st : futuros st → futuros (UseChat.alTyping evento st).
Proof.
  intros Hf t.
  destruct (alTyping_campos evento st) as (_ & _ & Ha & _ & _ & Hc).
  assert (∀ x, x ∈ match typingTimers st !! te_usuario_id evento with
                   | Some h => filter (λ t, t_id t ≠ h) (pendientes st)
                   | None => pendientes st
                   end → x ∈ pendientes st) as Hbase.
  { intros x. destruct (typingTimers st !! _); [|done].
    by intros [_ ?]%list_elem_of_filter. }
  rewrite Ha. destruct (te_escribiendo evento).
  - destruct Hc as (-> & _). rewrite elem_of_app, list_elem_of_singleton.
    intros [Ht| ->]; [by apply Hf, Hbase | cbn; lia].
  - destruct Hc as (-> & _). intros Ht. by apply Hf, Hbase.
Qed.

Lemma futuros_paso be a st : futuros st → futuros (paso be a st).
Proof.
  intros Hf. destruct a as [|c|i| |fila|ev|dt]; cbn [paso].
  - unfold UseChat.cargarMensajes, ChatUseCase.obtenerMensajes.
    by destruct (ChatUseCase.obtenerMensajes_try _).
  - unfold UseChat.enviarMensaje, ChatUseCase.enviarMensaje.
    destruct (es_vacia _); [done|].
    destruct (sesion be) as [u|]; [destruct (insert_error be)|]; simpl;
      by rewrite setTyping_eq.
  - unfold UseChat.eliminarMensaje, ChatUseCase.eliminarMensaje.
    by destruct (delete_error be).
  - by apply futuros_notifyTyping.
  - done.
  - by apply futuros_alTyping.
  - apply avanzar_futuros.
Qed.

Lemma alcanzable_futuros st : alcanzable st → futuros st.
Proof.
  induction 1; [by intros t ?%elem_of_nil | by apply futuros_paso].
Qed.

(* ===================================================================== *)
(** * Typing presence *)
(* ===================================================================== *)

Lemma filter_todos_no (P : Timer → Prop) `{!∀ t, Decision (P t)} (l : list Timer) :
  (∀ t, t ∈ l → ¬ P t) → filter P l = [].
Proof.
  induction l as [|x l IH]; intros HP; [done|].
  rewrite filter_cons_False by (apply HP; by left).
  apply IH. intros t Ht. apply HP. by right.
Qed.

Lemma filter_opuesto (P : Timer → Prop) `{!∀ t, Decision (P t)} (l : list Timer) :
  filter P (filter (λ t, ¬ P t) l) = [].
Proof.
  induction l as [|x l IH]; [done|].
  rewrite (filter_cons (λ t, ¬ P t)). destruct (decide (¬ P x)) as [Hx|Hx]; [|done].
  by rewrite filter_cons_False.
Qed.

Lemma filter_ajeno (P Q : Timer → Prop) `{!∀ t, Decision (P t)} `{!∀ t, Decision (Q t)}
    (l : list Timer) :
  (∀ t, t ∈ l → P t → Q t) → filter P (filter Q l) = filter P l.
Proof.
  induction l as [|x l IH]; intros Himp; [done|].
  rewrite (filter_cons Q), (filter_cons P).
  rewrite <- IH by (intros t Ht; apply Himp; by right).
  destruct (decide (Q x)) as [HQ|HQ].
  - by rewrite filter_cons.
  - destruct (decide (P x)) as [HP|HP]; [|done].
    destruct HQ. apply Himp; [by left | done].
Qed.

Lemma ninguno (x : string) (l : list TypingUser) :
  x ∉ tu_usuario_id <$> l → filter (λ u, tu_usuario_id u = x) l = [].
Proof.
  induction l as [|u l IH]; [done|].
  rewrite fmap_cons, not_elem_of_cons. intros [Hne Hx].
  rewrite filter_cons_False by congruence. by apply IH.
Qed.

Lemma uno_solo (x : string) (l : list TypingUser) :
  NoDup (tu_usuario_id <$> l) → x ∈ tu_usuario_id <$> l →
  length (filter (λ u, tu_usuario_id u = x) l) = 1.
Proof.
  induction l as [|u l IH]; [by intros _ ?%elem_of_nil|].
  rewrite fmap_cons, NoDup_cons, elem_of_cons. intros [Hu Hnd] Hx.
  rewrite filter_cons. destruct (decide (tu_usuario_id u = x)) as [Heq|Hne].
  - simpl. f_equal. rewrite <- Heq. by rewrite ninguno.
  - apply IH; [done|]. destruct Hx; [congruence | done].
Qed.

(** What a "typing" event leaves behind, whatever came before, for a
    sender other than ["__proto__"]: the sender is shown, the table holds a
    fresh handle for the sender, and the one pending timer that expires
    the sender is due in 3000ms. *)
Lemma alTyping_true_post u e st :
  Inv st → u ≠ proto →
  let st1 := UseChat.alTyping
               {| te_usuario_id := u; te_email := e; te_escribiendo := true |} st in
  escribe u st1 ∧
  timers_de u st1 = [{| t_id := prox_timer st; t_vence := ahora st + 3000;
                        t_cb := CbExpirar u |}] ∧
  typingTimers st1 !! u = Some (prox_timer st) ∧
  prox_timer st1 = S (prox_timer st) ∧
  ahora st1 = ahora st ∧
  typingUsers st1 = UseChat.agregarTypingUser u e (typingUsers st).
Proof.
  intros HI Hu. cbv zeta.
  destruct (alTyping_campos
              {| te_usuario_id := u; te_email := e; te_escribiendo := true |} st)
    as (_ & _ & Ha & _ & _ & Hp & Hpx & Ht & Hus).
  cbn [te_usuario_id te_email] in *.
  rewrite (alTyping_limpia st u HI Hu) in Hp.
  unfold escribe, timers_de. rewrite Hus, Hp, Ht, Hpx, Ha.
  split_and!; [apply elem_of_agregarTypingUser; by left | | | done..].
  - rewrite filter_app, (filter_opuesto (λ t, t_cb t = CbExpirar u)).
    by rewrite filter_cons_True.
  - rewrite lookup_asignar_propiedad. by rewrite bool_decide_eq_true_2.
Qed.

(** What a "stopped typing" event leaves behind, for a sender other than
    ["__proto__"]: the sender is not shown, has no handle in the table and
    no pending timer. *)
Lemma alTyping_false_post u e st :
  Inv st → u ≠ proto →
  let st1 := UseChat.alTyping
               {| te_usuario_id := u; te_email := e; te_escribiendo := false |} st in
  ¬ escribe u st1 ∧
  timers_de u st1 = [] ∧
  typingTimers st1 !! u = None ∧
  prox_timer st1 = prox_timer st ∧
  disparados st1 = disparados st ∧
  ahora st1 = ahora st ∧
  typingUsers st1 = UseChat.quitarTypingUser u (typingUsers st).
Proof.
  intros HI Hu. cbv zeta.
  destruct (alTyping_campos
              {| te_usuario_id := u; te_email := e; te_escribiendo := false |} st)
    as (_ & _ & Ha & Hd & _ & Hp & Hpx & Ht & Hus).
  cbn [te_usuario_id te_email] in *.
  rewrite (alTyping_limpia st u HI Hu) in Hp.
  unfold escribe, timers_de. rewrite Hus, Hp, Ht, Hpx, Ha, Hd.
  split_and!; [rewrite elem_of_quitarTypingUser; tauto | |
               apply lookup_delete_eq | done..].
  apply (filter_opuesto (λ t, t_cb t = CbExpirar u)).
Qed.

Lemma disparar_typingUsers be t st :
  typingUsers (disparar be t st) =
    match t_cb t with
    | CbDejarDeEscribir => typingUsers st
    | CbExpirar v => UseChat.quitarTypingUser v (typingUsers st)
    end.
Proof.
  unfold disparar, UseChat.ejecutar. destruct (t_cb t); [|done].
  by rewrite setTyping_eq.
Qed.

Lemma disparar_typingTimers be t st :
  typingTimers (disparar be t st) =
    match t_cb t with
    | CbDejarDeEscribir => typingTimers st
    | CbExpirar v => delete v (typingTimers st)
    end.
Proof.
  unfold disparar, UseChat.ejecutar, borrar_propiedad. destruct (t_cb t); [|done].
  by rewrite setTyping_eq.
Qed.

(** Taking one timer out of the table leaves those of another kind. *)
Lemma filter_sin_uno (P : Timer → Prop) `{!∀ t, Decision (P t)} st t :
  Inv st → t ∈ pendientes st → ¬ P t →
  filter P (filter (λ x, t_id x ≠ t_id t) (pendientes st)) = filter P (pendientes st).
Proof.
  intros HI Ht Hn. apply (filter_ajeno P). intros x Hx HP Hid.
  assert (x = t) as -> by (eapply mismo_id; eauto using inv_ids_nodup). done.
Qed.

(** Firing someone else's timer changes nothing for a sender. *)
Lemma disparar_ajeno be t u st :
  Inv st → t ∈ pendientes st → t_cb t ≠ CbExpirar u →
  (escribe u (disparar be t st) ↔ escribe u st) ∧
  timers_de u (disparar be t st) = timers_de u st ∧
  typingTimers (disparar be t st) !! u = typingTimers st !! u.
Proof.
  intros HI Ht Hcb. unfold escribe, timers_de.
  rewrite disparar_typingUsers, disparar_typingTimers, disparar_pendientes.
  split_and!.
  - destruct (t_cb t) as [|v]; [done|].
    rewrite elem_of_quitarTypingUser. split; [tauto|]. intros H. split; [congruence|done].
  - apply (filter_sin_uno (λ x, t_cb x = CbExpirar u)); done.
  - destruct (t_cb t) as [|v]; [done|]. apply lookup_delete_ne. congruence.
Qed.

(** While the sender's timer is not due, time passing keeps the sender
    shown and the timer pending. *)
Lemma avanzar_mantiene be u dt st :
  Inv st → escribe u st →
  (∀ t, t ∈ timers_de u st → ahora st + dt < t_vence t) →
  escribe u (avanzar be dt st) ∧
  timers_de u (avanzar be dt st) = timers_de u st ∧
  typingTimers (avanzar be dt st) !! u = typingTimers st !! u.
Proof.
  intros HI Hu Hdue. unfold avanzar.
  cut (let s := correr_timers be (length (pendientes st)) (ahora st + dt) st in
       Inv s ∧ escribe u s ∧ timers_de u s = timers_de u st ∧
       typingTimers s !! u = typingTimers st !! u).
  { simpl. tauto. }
  apply (correr_timers_inv be (λ s, Inv s ∧ escribe u s ∧
           timers_de u s = timers_de u st ∧
           typingTimers s !! u = typingTimers st !! u)); [|done].
  intros s t (HIs & Hus & Hts & Htab) (Ht & Hle & _)%proximo_Some.
  assert (t_cb t ≠ CbExpirar u) as Hcb.
  { intros Hcb. assert (t ∈ timers_de u st) as Hin.
    { rewrite <- Hts. by apply list_elem_of_filter. }
    specialize (Hdue t Hin). lia. }
  destruct (disparar_ajeno be t u s HIs Ht Hcb) as (H1 & H2 & H3).
  split_and!; [by apply Inv_disparar | by apply H1 | congruence | congruence].
Qed.

(** Once the sender's timers are all due, time passing removes the
    sender. *)
Lemma avanzar_expira be u dt st :
  Inv st →
  (∀ t, t ∈ timers_de u st → t_vence t ≤ ahora st + dt) →
  ¬ escribe u (avanzar be dt st) ∧
  timers_de u (avanzar be dt st) = [] ∧
  typingTimers (avanzar be dt st) !! u = None.
Proof.
  intros HI Hdue.
  pose proof (Inv_avanzar be dt st HI) as HI'.
  pose proof (avanzar_futuros be dt st) as Hf.
  assert (∀ t, t ∈ pendientes (avanzar be dt st) → t_cb t ≠ CbExpirar u) as Hno.
  { intros t Ht Hcb. specialize (Hf t Ht). rewrite avanzar_ahora in Hf.
    assert (t ∈ timers_de u st) as Hin.
    { apply list_elem_of_filter. split; [done|].
      eapply elem_of_sublist; [done | apply avanzar_sublista]. }
    specialize (Hdue t Hin). lia. }
  assert (typingTimers (avanzar be dt st) !! u = None) as Htab.
  { destruct (typingTimers (avanzar be dt st) !! u) as [h|] eqn:E; [|done].
    destruct (inv_tabla _ HI' u h E) as (t & Ht & _ & Hcb). by destruct (Hno t Ht). }
  split_and!; [| |done].
  - destruct (decide (u = proto)) as [->|Hu].
    + intros (t & Ht & Hcb)%(inv_users_proto _ HI'). by destruct (Hno t Ht).
    + rewrite (inv_users _ HI' u Hu), Htab. by intros [].
  - unfold timers_de. apply filter_todos_no. intros t Ht. by apply Hno.
Qed.

(** ** Refreshes *)

Lemma refrescos_ultimo be evento pausas st :
  Inv st →
  ∃ s, Inv s ∧ refrescos be evento pausas st = UseChat.alTyping evento s.
Proof.
  intros HI. unfold refrescos.
  cut (∀ acc, (∃ s, Inv s ∧ acc = UseChat.alTyping evento s) →
         ∃ s, Inv s ∧
           foldl (λ acc dt, UseChat.alTyping evento (avanzar be dt acc)) acc pausas =
           UseChat.alTyping evento s).
  { intros H. apply H. by exists st. }
  induction pausas as [|p pausas IH]; intros acc Hacc; simpl; [done|].
  apply IH. destruct Hacc as (s & Hs & ->).
  exists (avanzar be p (UseChat.alTyping evento s)). split; [|done].
  by apply Inv_avanzar, Inv_alTyping.
Qed.

Lemma refrescos_post be u e pausas st :
  Inv st → u ≠ proto →
  let st' := refrescos be
               {| te_usuario_id := u; te_email := e; te_escribiendo := true |}
               pausas st in
  Inv st' ∧ escribe u st' ∧
  ∃ h, timers_de u st' = [{| t_id := h; t_vence := ahora st' + 3000;
                             t_cb := CbExpirar u |}] ∧
       typingTimers st' !! u = Some h.
Proof.
  intros HI Hu.
  destruct (refrescos_ultimo be
              {| te_usuario_id := u; te_email := e; te_escribiendo := true |}
              pausas st HI) as (s & Hs & ->).
  destruct (alTyping_true_post u e s Hs Hu) as (H1 & H2 & H3 & _ & H5 & _).
  cbv zeta. split_and!; [by apply Inv_alTyping | done |].
  exists (prox_timer s). by rewrite H5.
Qed.

(** Refreshes of a sender other than ["__proto__"].  A sender already
    shown as typing sends "typing" again, and again after each of the
    given pauses, all shorter than 3000ms.  The first
    event adds nothing to the list; the sender is shown at every instant of
    every pause; after the last event the list holds exactly one entry for
    the sender and one pending timer for it, due 3000ms later; the sender
    is still shown at every instant before that, and gone from then on. *)
Theorem typing_refresco be u e (pausas : list nat) st :
  let evento := {| te_usuario_id := u; te_email := e; te_escribiendo := true |} in
  alcanzable st → u ≠ proto → escribe u st → Forall (λ p, p < 3000) pausas →
  typingUsers (UseChat.alTyping evento st) = typingUsers st ∧
  (∀ k p τ, pausas !! k = Some p → τ ≤ p →
     escribe u (avanzar be τ (refrescos be evento (take k pausas) st))) ∧
  let st' := refrescos be evento pausas st in
  length (filter (λ x, tu_usuario_id x = u) (typingUsers st')) = 1 ∧
  (∃ h, timers_de u st' = [{| t_id := h; t_vence := ahora st' + 3000;
                              t_cb := CbExpirar u |}] ∧
        typingTimers st' !! u = Some h) ∧
  (∀ dt, dt < 3000 → escribe u (avanzar be dt st')) ∧
  (∀ dt, 3000 ≤ dt → ¬ escribe u (avanzar be dt st')).
Proof.
  intros evento Halc Hnp Hu Hp. subst evento.
  pose proof (alcanzable_Inv st Halc) as HI.
  assert (∀ l dt, dt < 3000 →
            escribe u (avanzar be dt (refrescos be
              {| te_usuario_id := u; te_email := e; te_escribiendo := true |} l st)))
    as Hpresente.
  { intros l dt Hdt.
    destruct (refrescos_post be u e l st HI Hnp) as (HI' & Hu' & h & Ht & _).
    apply avanzar_mantiene; [done..|].
    intros t. rewrite Ht.
    intros ->%list_elem_of_singleton. simpl. lia. }
  split_and!.
  - destruct (alTyping_true_post u e st HI Hnp) as (_ & _ & _ & _ & _ & ->).
    by apply agregarTypingUser_presente.
  - intros k p τ Hk Hle. apply Hpresente.
    rewrite Forall_forall in Hp.
    assert (p < 3000) by (apply Hp; by eapply list_elem_of_lookup_2). lia.
  - destruct (refrescos_post be u e pausas st HI Hnp) as (HI' & Hu' & h & Ht & Htab).
    cbv zeta. split_and!.
    + apply uno_solo; [apply HI' | done].
    + by exists h.
    + by apply Hpresente.
    + intros dt Hdt. apply avanzar_expira; [done|].
      intros t. rewrite Ht. intros ->%list_elem_of_singleton. simpl. lia.
Qed.

(** ** Handles are never reused *)

Lemma muerto_marco h st st' :
  prox_timer st ≤ prox_timer st' →
  (∀ t, t ∈ pendientes st' → t ∈ pendientes st ∨ t_id t = prox_timer st) →
  (∀ x, x ∈ disparados st' → x ∈ disparados st ∨ ∃ t, t ∈ pendientes st ∧ t_id t = x) →
  muerto h st → muerto h st'.
Proof.
  intros Hpx Hp Hd (Hlt & Hnd & Hnp). split_and!.
  - lia.
  - intros [?|(t & Ht & Hid)]%Hd; [done|]. by apply (Hnp t).
  - intros t [Ht|Hid]%Hp; [by apply Hnp | lia].
Qed.

Lemma muerto_disparar be h t st :
  t ∈ pendientes st → muerto h st → muerto h (disparar be t st).
Proof.
  intros Ht. apply muerto_marco.
  - by rewrite disparar_prox_timer.
  - intros x. rewrite disparar_pendientes. intros [_ ?]%list_elem_of_filter. by left.
  - intros x. rewrite disparar_disparados, elem_of_app, list_elem_of_singleton.
    intros [?| ->]; [by left|]. right. by exists t.
Qed.

Lemma muerto_avanzar be h dt st : muerto h st → muerto h (avanzar be dt st).
Proof.
  intros Hm. unfold avanzar.
  cut (muerto h (correr_timers be (length (pendientes st)) (ahora st + dt) st)).
  { done. }
  apply (correr_timers_inv be (muerto h)); [|done].
  intros s t Hs (Ht & _)%proximo_Some. by apply muerto_disparar.
Qed.

Lemma notifyTyping_campos be st :
  prox_timer (UseChat.notifyTyping be st) = S (prox_timer st) ∧
  disparados (UseChat.notifyTyping be st) = disparados st ∧
  typingTimeoutRef (UseChat.notifyTyping be st) = Some (prox_timer st) ∧
  typingUsers (UseChat.notifyTyping be st) = typingUsers st ∧
  typingTimers (UseChat.notifyTyping be st) = typingTimers st ∧
  red (UseChat.notifyTyping be st) =
    red st ++ ((ahora st,.) <$> llamadas_typing be true).
Proof.
  unfold UseChat.notifyTyping. rewrite setTyping_eq.
  by destruct (typingTimeoutRef st) eqn:E; cbn -[Nat.add llamadas_typing]; rewrite E.
Qed.

Lemma muerto_paso be a h st : muerto h st → muerto h (paso be a st).
Proof.
  destruct a as [|c|i| |fila|ev|dt]; cbn [paso].
  - unfold UseChat.cargarMensajes, ChatUseCase.obtenerMensajes.
    by destruct (ChatUseCase.obtenerMensajes_try _).
  - unfold UseChat.enviarMensaje, ChatUseCase.enviarMensaje.
    destruct (es_vacia _); [done|].
    destruct (sesion be) as [u|]; [destruct (insert_error be)|];
      cbn -[llamadas_typing]; by rewrite setTyping_eq.
  - unfold UseChat.eliminarMensaje, ChatUseCase.eliminarMensaje.
    by destruct (delete_error be).
  - destruct (notifyTyping_campos be st) as (Hpx & Hd & _).
    apply muerto_marco.
    + lia.
    + intros t. rewrite notifyTyping_pendientes, elem_of_app, list_elem_of_singleton.
      intros [Ht| ->]; [left | by right].
      destruct (typingTimeoutRef st); [|done].
      by apply list_elem_of_filter in Ht as [_ ?].
    + intros x. rewrite Hd. by left.
  - done.
  - destruct (alTyping_campos ev st) as (_ & _ & _ & Hd & _ & Hc).
    assert (∀ x, x ∈ match typingTimers st !! te_usuario_id ev with
                     | Some h => filter (λ t, t_id t ≠ h) (pendientes st)
                     | None => pendientes st
                     end → x ∈ pendientes st) as Hbase.
    { intros x. destruct (typingTimers st !! _); [|done].
      by intros [_ ?]%list_elem_of_filter. }
    apply muerto_marco.
    + destruct (te_escribiendo ev); destruct Hc as (_ & -> & _); lia.
    + intros t. destruct (te_escribiendo ev); destruct Hc as (-> & _).
      * rewrite elem_of_app, list_elem_of_singleton.
        intros [?| ->]; [left; by apply Hbase | by right].
      * intros ?. left. by apply Hbase.
    + intros x. rewrite Hd. by left.
  - apply muerto_avanzar.
Qed.

Lemma muerto_correr be acciones h st :
  muerto h st → muerto h (correr be acciones st).
Proof.
  revert st. unfold correr.
  induction acciones as [|a l IH]; intros st Hm; simpl; [done|].
  by apply IH, muerto_paso.
Qed.

(** The stop, for every sender but ["__proto__"].  A "stopped typing"
    event removes the sender at once, whatever timer is pending for it: the
    sender is not shown and has no pending timer left; no passing of time
    shows it again; and the timer that was pending for it never fires,
    whatever the hook does afterwards. *)
Theorem typing_false_quita be u e st :
  alcanzable st → u ≠ proto →
  let st1 := UseChat.alTyping
               {| te_usuario_id := u; te_email := e; te_escribiendo := false |} st in
  ¬ escribe u st1 ∧
  timers_de u st1 = [] ∧
  (∀ dt, ¬ escribe u (avanzar be dt st1)) ∧
  (∀ t acciones, t ∈ timers_de u st → t_id t ∉ disparados (correr be acciones st1)).
Proof.
  intros Halc Hu. pose proof (alcanzable_Inv st Halc) as HI.
  destruct (alTyping_false_post u e st HI Hu) as (H1 & H2 & H3 & H4 & H5 & H6 & H7).
  cbv zeta. split_and!; [done..| |].
  - intros dt. apply avanzar_expira; [by apply Inv_alTyping|].
    intros t. rewrite H2. by intros ?%elem_of_nil.
  - intros t acciones [Hcb Ht]%list_elem_of_filter.
    cut (muerto (t_id t)
           (UseChat.alTyping
              {| te_usuario_id := u; te_email := e; te_escribiendo := false |} st)).
    { intros Hm. by apply (muerto_correr be acciones) in Hm as (_ & ? & _). }
    split_and!.
    + rewrite H4. by apply HI.
    + rewrite H5. by apply HI.
    + intros t' Ht' Hid.
      assert (t' ∈ pendientes st) as Hin.
      { destruct (alTyping_campos
                    {| te_usuario_id := u; te_email := e; te_escribiendo := false |} st)
          as (_ & _ & _ & _ & _ & Hp & _).
        cbn [te_escribiendo te_usuario_id] in Hp. rewrite Hp in Ht'.
        destruct (typingTimers st !! u); [|done].
        by apply list_elem_of_filter in Ht' as [_ ?]. }
      assert (t' = t) as -> by (eapply mismo_id; eauto using inv_ids_nodup).
      assert (t ∈ timers_de u (UseChat.alTyping
                {| te_usuario_id := u; te_email := e; te_escribiendo := false |} st))
        as Hin' by (by apply list_elem_of_filter).
      rewrite H2 in Hin'. by apply elem_of_nil in Hin'.
Qed.

(* ===================================================================== *)
(** * Teardown *)
(* ===================================================================== *)

Lemma foldl_clearTimeout (l : list nat) st :
  foldl (λ acc h, clearTimeout h acc) st l =
  con_pendientes
    (λ p, foldl (λ acc h, filter (λ t, t_id t ≠ h) acc) p l) st.
Proof.
  revert st. induction l as [|h l IH]; intros st; simpl.
  - by destruct st.
  - by rewrite IH.
Qed.

Lemma elem_of_foldl_filter (l : list nat) (p : list Timer) t :
  t ∈ foldl (λ acc h, filter (λ t, t_id t ≠ h) acc) p l ↔ t ∈ p ∧ t_id t ∉ l.
Proof.
  revert p. induction l as [|h l IH]; intros p; simpl.
  - split; [|tauto]. intros ?. split; [done|]. by intros ?%elem_of_nil.
  - rewrite IH, list_elem_of_filter, not_elem_of_cons. tauto.
Qed.


(* ===================================================================== *)
(** * The local debouncer *)
(* ===================================================================== *)

Lemma disparar_red be t st :
  red (disparar be t st) =
    red st ++
    match t_cb t with
    | CbDejarDeEscribir => (ahora st `max` t_vence t,.) <$> llamadas_typing be false
    | CbExpirar _ => []
    end.
Proof.
  unfold disparar, UseChat.ejecutar. destruct (t_cb t).
  - by rewrite setTyping_eq.
  - cbn. by rewrite app_nil_r.
Qed.

Lemma disparar_typingTimeoutRef be t st :
  typingTimeoutRef (disparar be t st) =
    match t_cb t with
    | CbDejarDeEscribir => None
    | CbExpirar _ => typingTimeoutRef st
    end.
Proof. unfold disparar, UseChat.ejecutar. by destruct (t_cb t). Qed.

(** The loop fires timers in the order they are due: the clock never
    passes a pending timer. *)
Lemma disparar_al_dia be hasta t st :
  al_dia st → proximo hasta (pendientes st) = Some t → al_dia (disparar be t st).
Proof.
  intros Had (Ht & Hle & Hmin)%proximo_Some x.
  rewrite disparar_pendientes, disparar_ahora.
  intros [_ Hx]%list_elem_of_filter.
  specialize (Had x Hx).
  destruct (decide (t_vence x ≤ hasta)) as [Hd|Hd].
  - specialize (Hmin x Hx Hd). lia.
  - lia.
Qed.

(** Firing a timer of the presence tracker changes nothing for the
    debouncer. *)
Lemma disparar_expirar be t st :
  Inv st → t ∈ pendientes st → t_cb t ≠ CbDejarDeEscribir →
  red (disparar be t st) = red st ∧
  dejar_de (disparar be t st) = dejar_de st ∧
  typingTimeoutRef (disparar be t st) = typingTimeoutRef st.
Proof.
  intros HI Ht Hcb. unfold dejar_de.
  rewrite disparar_red, disparar_typingTimeoutRef, disparar_pendientes.
  split_and!.
  - destruct (t_cb t) as [|v] eqn:E; [done|]. by rewrite app_nil_r.
  - by apply (filter_sin_uno (λ x, t_cb x = CbDejarDeEscribir)).
  - by destruct (t_cb t).
Qed.

(** While the debounce timer is not due, time passing publishes nothing. *)
Lemma avanzar_sin_dejar be dt st :
  Inv st →
  (∀ t, t ∈ dejar_de st → ahora st + dt < t_vence t) →
  red (avanzar be dt st) = red st ∧
  dejar_de (avanzar be dt st) = dejar_de st ∧
  typingTimeoutRef (avanzar be dt st) = typingTimeoutRef st.
Proof.
  intros HI Hdue. unfold avanzar.
  cut (let s := correr_timers be (length (pendientes st)) (ahora st + dt) st in
       Inv s ∧ red s = red st ∧ dejar_de s = dejar_de st ∧
       typingTimeoutRef s = typingTimeoutRef st).
  { cbn. tauto. }
  apply (correr_timers_inv be (λ s, Inv s ∧ red s = red st ∧
           dejar_de s = dejar_de st ∧
           typingTimeoutRef s = typingTimeoutRef st)); [|done].
  intros s t (HIs & Hr & Hd & Href) (Ht & Hle & _)%proximo_Some.
  assert (t_cb t ≠ CbDejarDeEscribir) as Hcb.
  { intros Hcb. assert (t ∈ dejar_de st) as Hin.
    { rewrite <- Hd. by apply list_elem_of_filter. }
    specialize (Hdue t Hin). lia. }
  destruct (disparar_expirar be t s HIs Ht Hcb) as (H1 & H2 & H3).
  split_and!; [by apply Inv_disparar | congruence..].
Qed.

(** Once the debounce timer is due, time passing fires it once, at its due
    time: one [setTyping(false)], and the ref is null again. *)
Lemma avanzar_con_dejar be dt st t0 :
  Inv st → al_dia st →
  dejar_de st = [t0] → t_vence t0 ≤ ahora st + dt →
  red (avanzar be dt st) = red st ++ ((t_vence t0,.) <$> llamadas_typing be false) ∧
  dejar_de (avanzar be dt st) = [] ∧
  typingTimeoutRef (avanzar be dt st) = None.
Proof.
  intros HI Had Ht0 Hdue.
  set (X := (t_vence t0,.) <$> llamadas_typing be false).
  set (fin := correr_timers be (length (pendientes st)) (ahora st + dt) st).
  assert (Inv fin ∧ al_dia fin ∧
          ((dejar_de fin = [t0] ∧ red fin = red st) ∨
           (dejar_de fin = [] ∧ red fin = red st ++ X ∧ typingTimeoutRef fin = None)))
    as (HIf & _ & Hfin).
  { apply (correr_timers_inv be (λ s, Inv s ∧ al_dia s ∧
             ((dejar_de s = [t0] ∧ red s = red st) ∨
              (dejar_de s = [] ∧ red s = red st ++ X ∧ typingTimeoutRef s = None))));
      [|by auto].
    intros s t (HIs & Hads & Hfase) Hprox.
    pose proof Hprox as (Ht & Hle & _)%proximo_Some.
    split_and!; [by apply Inv_disparar | by eapply disparar_al_dia |].
    destruct (decide (t_cb t = CbDejarDeEscribir)) as [Hcb|Hcb].
    - assert (t ∈ dejar_de s) as Hin by (by apply list_elem_of_filter).
      destruct Hfase as [[Hd Hr]|[Hd _]]; [|rewrite Hd in Hin; by apply elem_of_nil in Hin].
      rewrite Hd in Hin. apply list_elem_of_singleton in Hin as ->. right.
      unfold dejar_de.
      rewrite disparar_red, disparar_typingTimeoutRef, disparar_pendientes, Hcb.
      rewrite (quitar_por_disparo s t0 HIs Ht) by (by rewrite Hcb); rewrite Hcb.
      split_and!; [|by rewrite Hr, (Nat.max_r _ _ (Hads t0 Ht))|done].
      apply (filter_opuesto (λ x, t_cb x = CbDejarDeEscribir)).
    - destruct (disparar_expirar be t s HIs Ht Hcb) as (H1 & H2 & H3).
      rewrite H1, H2, H3. done. }
  unfold avanzar. fold fin. cbn.
  destruct Hfin as [[Hd _]|(? & ? & ?)]; [|done]. exfalso.
  pose proof (avanzar_futuros be dt st t0) as Hf.
  unfold avanzar in Hf. fold fin in Hf. cbn in Hf.
  assert (t0 ∈ pendientes fin) as Hin.
  { assert (t0 ∈ dejar_de fin) as H0 by (rewrite Hd; by left).
    by apply list_elem_of_filter in H0 as [_ ?]. }
  specialize (Hf Hin). lia.
Qed.


Lemma stop_typing_false be user (t : nat) :
  sesion be = Some user →
  filter es_stop ((t,.) <$> llamadas_typing be false) =
    [(t, LlBroadcast (i_id user) (o_defecto (i_email user) "Desconocido") false)].
Proof. intros Hs. unfold llamadas_typing. by rewrite Hs. Qed.





(** ** Sending while the debounce timer is armed *)

Lemma enviarMensaje_campos be contenido st :
  let st1 := (UseChat.enviarMensaje be contenido st).2 in
  pendientes st1 = pendientes st ∧
  ahora st1 = ahora st ∧
  typingTimeoutRef st1 = typingTimeoutRef st ∧
  typingTimers st1 = typingTimers st ∧
  typingUsers st1 = typingUsers st ∧
  prox_timer st1 = prox_timer st ∧
  disparados st1 = disparados st.
Proof.
  unfold UseChat.enviarMensaje, ChatUseCase.enviarMensaje.
  destruct (es_vacia _); [done|].
  destruct (sesion be) as [u|]; [destruct (insert_error be)|];
    cbn -[llamadas_typing]; by rewrite setTyping_eq.
Qed.

Lemma es_vacia_false (s : JsString) : s ≠ [] → es_vacia s = false.
Proof. by destruct s. Qed.

(** C6, as the code has it.  With a user signed in and the debounce timer
    armed, sending a body that does not trim to nothing publishes "stopped
    typing" at once, right after the insert attempt; the send leaves the
    timer table and the ref as they were, so the debounce timer stays armed
    and, when it is due, publishes "stopped typing" a second time. *)
Theorem envio_deja_timer be user contenido st t0 dt :
  alcanzable st → sesion be = Some user → trim contenido ≠ [] →
  dejar_de st = [t0] → t_vence t0 ≤ ahora st + dt →
  let st1 := (UseChat.enviarMensaje be contenido st).2 in
  let stop := LlBroadcast (i_id user) (o_defecto (i_email user) "Desconocido") false in
  red st1 = red st ++ [(ahora st, LlGetUser);
                       (ahora st, LlInsert contenido (i_id user));
                       (ahora st, LlGetUser);
                       (ahora st, stop)] ∧
  pendientes st1 = pendientes st ∧
  typingTimeoutRef st1 = typingTimeoutRef st ∧
  ∃ nuevas,
    red (avanzar be dt st1) = red st ++ nuevas ∧
    filter es_stop nuevas = [(ahora st, stop); (t_vence t0, stop)].
Proof.
  intros Halc Hs Hc Ht0 Hdt. cbv zeta.
  pose proof (alcanzable_Inv st Halc) as HI.
  pose proof (alcanzable_futuros st Halc) as Hf.
  destruct (enviarMensaje_campos be contenido st) as (Hp & Ha & Href & _).
  assert (red (UseChat.enviarMensaje be contenido st).2 =
          red st ++ [(ahora st, LlGetUser);
                     (ahora st, LlInsert contenido (i_id user));
                     (ahora st, LlGetUser);
                     (ahora st, LlBroadcast (i_id user)
                                  (o_defecto (i_email user) "Desconocido") false)])
    as Hred.
  { rewrite enviarMensaje_red. unfold llamadas_envio.
    by rewrite (es_vacia_false _ Hc), Hs. }
  split_and!; [done..|].
  destruct (avanzar_con_dejar be dt (UseChat.enviarMensaje be contenido st).2 t0)
    as (Hr' & _ & _).
  - by apply Inv_enviarMensaje.
  - intros t. rewrite Hp, Ha. intros Ht. specialize (Hf t Ht). lia.
  - unfold dejar_de. by rewrite Hp.
  - by rewrite Ha.
  - eexists. rewrite Hr', Hred, <- app_assoc. split; [done|].
    rewrite filter_app, (stop_typing_false be user _ Hs). done.
Qed.

(** C10, as the code has it.  For a body that does not trim to nothing the
    hook calls [setTyping(false)] after the insert attempt, whether or not
    the insert succeeds; that call publishes the signal exactly when a
    user is signed in, and publishes nothing otherwise.  For a body that
    trims to nothing, nothing is called and nothing is published. *)
Theorem envio_senal_typing be contenido st :
  red (UseChat.enviarMensaje be contenido st).2 =
    red st ++ ((ahora st,.) <$> llamadas_envio be contenido) ∧
  filter es_typing ((ahora st,.) <$> llamadas_envio be contenido) =
    (if es_vacia (trim contenido) then []
     else match sesion be with
          | Some user =>
              [(ahora st, LlBroadcast (i_id user)
                            (o_defecto (i_email user) "Desconocido") false)]
          | None => []
          end).
Proof.
  split; [apply enviarMensaje_red|].
  unfold llamadas_envio. destruct (es_vacia _); [done|]. by destruct (sesion be).
Qed.

(* ===================================================================== *)
(** * The theorems at work on sample values *)
(* ===================================================================== *)

Lemma mensajes_sin_duplicados_witness :
  NoDup (m_id <$> mensajes
           (correr Ejemplos.backend
              [ACargar; ANuevoMensaje Ejemplos.fila1; ANuevoMensaje Ejemplos.fila3;
               ANuevoMensaje Ejemplos.fila3; ACargar; ANuevoMensaje Ejemplos.fila3]
              inicial)).
Proof.
  apply mensajes_sin_duplicados.
  - intros n data [= <-]. apply (bool_decide_unpack _). vm_compute. exact I.
  - simpl. apply NoDup_nil_2.
Defined.

Lemma typing_refresco_witness :
  escribe "u-luis"
    (avanzar Ejemplos.backend 2000
       (refrescos Ejemplos.backend Ejemplos.luis_escribe [2000] Ejemplos.con_luis)) ∧
  ¬ escribe "u-luis"
    (avanzar Ejemplos.backend 3000
       (refrescos Ejemplos.backend Ejemplos.luis_escribe [2000] Ejemplos.con_luis)).
Proof.
  assert (alcanzable Ejemplos.con_luis) as H1 by (apply alc_paso, alc_inicial).
  assert (escribe "u-luis" Ejemplos.con_luis) as H2
    by (apply (bool_decide_unpack _); vm_compute; exact I).
  assert (Forall (λ p, p < 3000) [2000]) as H3
    by (apply Forall_cons_2; [lia | apply Forall_nil_2]).
  assert ("u-luis" ≠ proto) as H0 by discriminate.
  destruct (typing_refresco Ejemplos.backend "u-luis" (Some "luis@recetas.app")
              [2000] Ejemplos.con_luis H1 H0 H2 H3) as (_ & _ & _ & _ & Hsi & Hno).
  split; [apply Hsi; lia | apply Hno; lia].
Defined.

Lemma typing_false_quita_witness :
  ¬ escribe "u-luis"
      (UseChat.alTyping
         {| te_usuario_id := "u-luis"; te_email := None; te_escribiendo := false |}
         Ejemplos.con_luis).
Proof.
  apply (typing_false_quita Ejemplos.backend "u-luis" None Ejemplos.con_luis).
  - apply alc_paso, alc_inicial.
  - discriminate.
Defined.



Lemma envio_deja_timer_witness :
  ∃ nuevas,
    red (avanzar Ejemplos.backend 1490
           (UseChat.enviarMensaje Ejemplos.backend Ejemplos.hola Ejemplos.tecleando).2) =
      red Ejemplos.tecleando ++ nuevas ∧
    filter es_stop nuevas =
      [(10, LlBroadcast "u-ana" "ana@recetas.app" false);
       (1500, LlBroadcast "u-ana" "ana@recetas.app" false)].
Proof.
  apply (envio_deja_timer Ejemplos.backend Ejemplos.ana Ejemplos.hola Ejemplos.tecleando
           {| t_id := 1; t_vence := 1500; t_cb := CbDejarDeEscribir |} 1490).
  - apply alc_paso, alc_paso, alc_inicial.
  - reflexivity.
  - vm_compute. discriminate.
  - vm_compute. reflexivity.
  - vm_compute. lia.
Defined.

Lemma historial_ordenado_witness :
  let '(ms, st') := ChatUseCase.obtenerMensajes Ejemplos.backend 50 inicial in
  red st' = red inicial ++ [(ahora inicial, LlSelect false 50)] ∧
  ms = reverse (ChatUseCase.formatear <$> [Ejemplos.fila2; Ejemplos.fila1]) ∧
  length ms ≤ 50 ∧
  StronglySorted (λ x y, Ejemplos.antes (m_created_at x) (m_created_at y)) ms.
Proof.
  apply (historial_ordenado Ejemplos.antes Ejemplos.backend 50 inicial
           [Ejemplos.fila2; Ejemplos.fila1]).
  - reflexivity.
  - simpl. lia.
  - repeat constructor.
Defined.

Lemma historial_fallo_vacio_witness :
  (ChatUseCase.obtenerMensajes Ejemplos.backend_caido 50 inicial).1 = [].
Proof. apply historial_fallo_vacio. reflexivity. Defined.

Lemma envio_vacio_rechazado_witness :
  UseChat.enviarMensaje Ejemplos.backend Ejemplos.blancos inicial =
    ({| success := false; error := Some "El mensaje está vacío" |}, inicial).
Proof. apply envio_vacio_rechazado. reflexivity. Defined.

(* ===================================================================== *)
(** * Where the code departs from the specification *)
(* ===================================================================== *)

(** C2 fails on the code for the sender ["__proto__"]: reading the table
    under that key gives [Object.prototype], for which [clearTimeout]
    does nothing, and the new handle is not stored.  A refresh 2000ms
    after the first event leaves both timers pending, and the first one
    removes the sender 1000ms after the refresh. *)
Theorem refresco_proto_no_reinicia :
  let st := correr Ejemplos.backend
              [ATyping Ejemplos.proto_escribe; AEsperar 2000;
               ATyping Ejemplos.proto_escribe] inicial in
  escribe proto st ∧
  typingTimers st !! proto = None ∧
  timers_de proto st =
    [{| t_id := 1; t_vence := 3000; t_cb := CbExpirar proto |};
     {| t_id := 2; t_vence := 5000; t_cb := CbExpirar proto |}] ∧
  ¬ escribe proto (avanzar Ejemplos.backend 1000 st).
Proof.
  cbv zeta. split_and!.
  - apply (bool_decide_unpack _). vm_compute. exact I.
  - vm_compute. reflexivity.
  - vm_compute. reflexivity.
  - apply (bool_decide_unpack _). vm_compute. exact I.
Qed.

(** C3 fails on the code for the sender ["__proto__"]: the stop event
    removes the sender but clears no timer.  The timer armed by the first
    event is still pending after the stop and fires at its due time; if
    the sender types again in between, that stale timer removes it 500ms
    later. *)
Theorem stop_proto_no_cancela :
  let st := correr Ejemplos.backend
              [ATyping Ejemplos.proto_escribe; AEsperar 1000;
               ATyping Ejemplos.proto_para] inicial in
  ¬ escribe proto st ∧
  timers_de proto st = [{| t_id := 1; t_vence := 3000; t_cb := CbExpirar proto |}] ∧
  disparados (avanzar Ejemplos.backend 2000 st) = [1] ∧
  escribe proto
    (correr Ejemplos.backend [AEsperar 1500; ATyping Ejemplos.proto_escribe] st) ∧
  ¬ escribe proto
      (correr Ejemplos.backend
         [AEsperar 1500; ATyping Ejemplos.proto_escribe; AEsperar 500] st).
Proof.
  cbv zeta. split_and!.
  - apply (bool_decide_unpack _). vm_compute. exact I.
  - vm_compute. reflexivity.
  - vm_compute. reflexivity.
  - apply (bool_decide_unpack _). vm_compute. exact I.
  - apply (bool_decide_unpack _). vm_compute. exact I.
Qed.


(** C6, as stated, fails: a send does not cancel the debounce timer.  Ten
    milliseconds after [notifyTyping()] a send leaves the timer pending,
    and by the time it is due "stopped typing" has been published twice. *)
Lemma envio_no_cancela_timer :
  ¬ (∀ be contenido st,
       alcanzable st → trim contenido ≠ [] →
       dejar_de (UseChat.enviarMensaje be contenido st).2 = []) ∧
  filter es_stop
    (red (correr Ejemplos.backend
            [ANotifyTyping; AEsperar 10; AEnviar Ejemplos.hola; AEsperar 1490]
            inicial)) =
    [(10, LlBroadcast "u-ana" "ana@recetas.app" false);
     (1500, LlBroadcast "u-ana" "ana@recetas.app" false)].
Proof.
  split; [|by vm_compute].
  intros H.
  specialize (H Ejemplos.backend Ejemplos.hola Ejemplos.tecleando
                (alc_paso _ _ _ (alc_paso _ _ _ alc_inicial))).
  assert (trim Ejemplos.hola ≠ []) as Hc by (vm_compute; discriminate).
  specialize (H Hc). vm_compute in H. discriminate.
Qed.

(** C10, as stated, fails: with nobody signed in, a send of a proper body
    publishes no typing signal. *)
Lemma envio_sin_sesion_no_publica :
  ¬ (∀ be contenido st,
       trim contenido ≠ [] →
       ∃ x, x ∈ red (UseChat.enviarMensaje be contenido st).2 ∧ es_stop x).
Proof.
  intros H.
  destruct (H Ejemplos.backend_sin_sesion Ejemplos.hola inicial) as (x & Hx & Hstop).
  { vm_compute. discriminate. }
  vm_compute in Hx.
  apply elem_of_cons in Hx as [->|Hx]; [done|].
  apply elem_of_cons in Hx as [->|Hx]; [done|].
  by apply elem_of_nil in Hx.
Qed.

(* ===================================================================== *)
(** * Further properties of the use case and the hook *)
(* ===================================================================== *)

(** ** Sending *)

(** A send succeeds exactly when the body does not trim to nothing, a user
    is signed in and the store accepts the insert. *)
Theorem envio_exito_sii be contenido st :
  success (UseChat.enviarMensaje be contenido st).1 = true ↔
  trim contenido ≠ [] ∧ is_Some (sesion be) ∧ insert_error be = None.
Proof.
  unfold UseChat.enviarMensaje, ChatUseCase.enviarMensaje.
  destruct (trim contenido) as [|c r] eqn:Ht; cbn [es_vacia].
  - split; [done|]. by intros [? _].
  - destruct (sesion be) as [u|]; [destruct (insert_error be) as [e|]|]; cbn.
    + split; [done|]. by intros (_ & _ & ?).
    + split; [|done]. intros _. split_and!; [done|by eexists|done].
    + split; [done|]. by intros (_ & [? ?] & _).
Qed.

(** The hook calls the backend exactly when the body is not made of white
    space only. *)
Theorem envio_sin_llamadas_sii be contenido st :
  red (UseChat.enviarMensaje be contenido st).2 = red st ↔
  forallb es_espacio contenido = true.
Proof.
  rewrite <- trim_nil, enviarMensaje_red. unfold llamadas_envio. split.
  - destruct (trim contenido) as [|c r]; [done|]. cbn [es_vacia].
    intros H. apply (f_equal length) in H. rewrite length_app, length_fmap in H.
    destruct (sesion be); cbn in H; lia.
  - intros ->. cbn. by rewrite app_nil_r.
Qed.

(** A send makes at most one insert; the insert carries the body as it
    was typed, not trimmed, and the identifier of the signed-in user; no
    insert is made without a user, or for a body that trims to nothing. *)
Theorem envio_insert be contenido st :
  ∃ nuevas,
    red (UseChat.enviarMensaje be contenido st).2 = red st ++ nuevas ∧
    filter es_insert nuevas =
      (if es_vacia (trim contenido) then []
       else match sesion be with
            | Some user => [(ahora st, LlInsert contenido (i_id user))]
            | None => []
            end).
Proof.
  eexists. split; [apply enviarMensaje_red|].
  unfold llamadas_envio. destruct (es_vacia _); [done|]. by destruct (sesion be).
Qed.

(** Without a user a proper body fails with the authentication message;
    a store error is handed to the caller as it is. *)
Theorem envio_errores be contenido st :
  trim contenido ≠ [] →
  error (UseChat.enviarMensaje be contenido st).1 =
    match sesion be with
    | None => Some "Usuario no autenticado"
    | Some _ => insert_error be
    end.
Proof.
  intros Hc. unfold UseChat.enviarMensaje, ChatUseCase.enviarMensaje.
  rewrite (es_vacia_false _ Hc).
  destruct (sesion be); [destruct (insert_error be)|]; done.
Qed.

(** A send never touches the displayed list: the message sent is shown
    only when the change feed delivers it.  The sending flag is down again
    when the send returns. *)
Theorem envio_no_muestra be contenido st :
  enviando st = false →
  mensajes (UseChat.enviarMensaje be contenido st).2 = mensajes st ∧
  enviando (UseChat.enviarMensaje be contenido st).2 = false.
Proof.
  intros He. split; [apply enviarMensaje_mensajes|].
  unfold UseChat.enviarMensaje, ChatUseCase.enviarMensaje.
  destruct (es_vacia _); [done|].
  destruct (sesion be) as [u|]; [destruct (insert_error be)|];
    cbn -[llamadas_typing]; by rewrite setTyping_eq.
Qed.

(** ** Deleting *)

(** A delete the store accepts removes the message with that identifier
    from the displayed list and keeps the others in their order; a delete
    the store refuses leaves the list as it is and hands the error to the
    caller. *)
Theorem eliminar_local be mensajeId st :
  let '(resultado, st') := UseChat.eliminarMensaje be mensajeId st in
  red st' = red st ++ [(ahora st, LlDelete mensajeId)] ∧
  match delete_error be with
  | None =>
      success resultado = true ∧
      mensajes st' = filter (λ m, m_id m ≠ mensajeId) (mensajes st) ∧
      (mensajeId ∉ m_id <$> mensajes st') ∧
      mensajes st' `sublist_of` mensajes st
  | Some e =>
      resultado = {| success := false; error := Some e |} ∧
      mensajes st' = mensajes st
  end.
Proof.
  unfold UseChat.eliminarMensaje, ChatUseCase.eliminarMensaje.
  destruct (delete_error be) as [e|]; cbn; [done|].
  split_and!; [done..| |apply sublist_filter].
  intros (m & Hid & [Hne _]%list_elem_of_filter)%list_elem_of_fmap. congruence.
Qed.

(** ** Rows and messages *)

(** History and live feed build a message from a row in the same way.
    A missing or empty e-mail reads "Desconocido", any other e-mail is
    kept; a missing or empty role reads "usuario", any other role is kept;
    so neither is ever the empty string. *)
Theorem fila_a_mensaje (fila : Fila) :
  ChatUseCase.mensajeDePayload fila = ChatUseCase.formatear fila ∧
  um_email (m_usuario (ChatUseCase.formatear fila)) =
    match f_usuario_email fila with
    | None => "Desconocido"
    | Some s => if decide (s = "") then "Desconocido" else s
    end ∧
  um_rol (m_usuario (ChatUseCase.formatear fila)) =
    match f_usuario_rol fila with
    | None => "usuario"
    | Some s => if decide (s = "") then "usuario" else s
    end ∧
  um_email (m_usuario (ChatUseCase.formatear fila)) ≠ "" ∧
  um_rol (m_usuario (ChatUseCase.formatear fila)) ≠ "".
Proof.
  cbn. unfold o_defecto.
  destruct (f_usuario_email fila) as [s|], (f_usuario_rol fila) as [r|];
    try destruct (String.eqb_spec s ""); try destruct (String.eqb_spec r "");
    repeat case_decide; done.
Qed.

(** Loading the history drops no row and adds none: one message per row,
    with the row's identifier, body, sender and timestamp. *)
Theorem historial_completo be limite st data :
  select_resp be limite = Resuelve data None →
  let ms := (ChatUseCase.obtenerMensajes be limite st).1 in
  length ms = length (default [] data) ∧
  ∀ m, m ∈ ms ↔ ∃ fila, fila ∈ default [] data ∧ m = ChatUseCase.formatear fila.
Proof.
  intros Hr. unfold ChatUseCase.obtenerMensajes, ChatUseCase.obtenerMensajes_try.
  rewrite Hr. cbn. split.
  - by rewrite length_reverse, length_fmap.
  - intros m. rewrite elem_of_reverse, list_elem_of_fmap.
    split; intros (fila & H1 & H2); exists fila; done.
Qed.

(** ** Live inserts *)

(** Delivering a message already shown changes nothing; delivering a new
    one puts it last; delivering the same message twice is delivering it
    once. *)
Theorem agregarSiNuevo_casos (prev : list Mensaje) (m : Mensaje) :
  (m_id m ∈ m_id <$> prev → UseChat.agregarSiNuevo prev m = prev) ∧
  (m_id m ∉ m_id <$> prev → UseChat.agregarSiNuevo prev m = prev ++ [m]) ∧
  UseChat.agregarSiNuevo (UseChat.agregarSiNuevo prev m) m =
    UseChat.agregarSiNuevo prev m.
Proof.
  assert (∀ l, m_id m ∈ m_id <$> l → UseChat.agregarSiNuevo l m = l) as Hsi.
  { intros l H%existsb_m_id. unfold UseChat.agregarSiNuevo. by rewrite H. }
  assert (∀ l, m_id m ∉ m_id <$> l → UseChat.agregarSiNuevo l m = l ++ [m]) as Hno.
  { intros l H. unfold UseChat.agregarSiNuevo.
    destruct (existsb _ l) eqn:E; [|done]. by apply existsb_m_id in E. }
  split_and!; [apply Hsi | apply Hno |].
  destruct (decide (m_id m ∈ m_id <$> prev)) as [Hin|Hin].
  - rewrite (Hsi prev Hin). by apply Hsi.
  - rewrite (Hno prev Hin). apply Hsi. rewrite fmap_app, elem_of_app. right.
    by apply list_elem_of_singleton.
Qed.

(** ** Timers run no longer than their delay *)

Lemma acotados_paso be a st : acotados st → acotados (paso be a st).
Proof.
  intros Hac. destruct a as [|c|i| |fila|ev|dt]; cbn [paso].
  - unfold UseChat.cargarMensajes, ChatUseCase.obtenerMensajes.
    by destruct (ChatUseCase.obtenerMensajes_try _).
  - destruct (enviarMensaje_campos be c st) as (Hp & Ha & _).
    intros t. rewrite Hp, Ha. apply Hac.
  - unfold UseChat.eliminarMensaje, ChatUseCase.eliminarMensaje.
    by destruct (delete_error be).
  - intros t. rewrite notifyTyping_pendientes, notifyTyping_ahora.
    rewrite elem_of_app, list_elem_of_singleton.
    intros [Ht| ->]; [|cbn; lia].
    apply Hac. destruct (typingTimeoutRef st); [|done].
    by apply list_elem_of_filter in Ht as [_ ?].
  - done.
  - intros t.
    destruct (alTyping_campos ev st) as (_ & _ & Ha & _ & _ & Hc).
    assert (∀ x, x ∈ match typingTimers st !! te_usuario_id ev with
                     | Some h => filter (λ t, t_id t ≠ h) (pendientes st)
                     | None => pendientes st
                     end → x ∈ pendientes st) as Hbase.
    { intros x. destruct (typingTimers st !! _); [|done].
      by intros [_ ?]%list_elem_of_filter. }
    rewrite Ha. destruct (te_escribiendo ev).
    + destruct Hc as (-> & _). rewrite elem_of_app, list_elem_of_singleton.
      intros [Ht| ->]; [by apply Hac, Hbase | cbn; lia].
    + destruct Hc as (-> & _). intros Ht. by apply Hac, Hbase.
  - intros t Ht. rewrite avanzar_ahora.
    assert (t ∈ pendientes st) as Hin
      by (eapply elem_of_sublist; [done | apply avanzar_sublista]).
    specialize (Hac t Hin). lia.
Qed.

Lemma alcanzable_acotados st : alcanzable st → acotados st.
Proof.
  induction 1; [by intros t ?%elem_of_nil | by apply acotados_paso].
Qed.

Lemma unico (l : list Timer) t :
  NoDup (t_id <$> l) → t ∈ l → (∀ x, x ∈ l → t_id x = t_id t) → l = [t].
Proof.
  intros Hnd Ht Hid. destruct l as [|a [|b l]].
  - by apply elem_of_nil in Ht.
  - by apply list_elem_of_singleton in Ht as ->.
  - exfalso. rewrite !fmap_cons in Hnd. apply NoDup_cons in Hnd as [Ha _].
    apply Ha. rewrite (Hid a), <- (Hid b); [left | right; left | left].
Qed.

(** ** The presence tracker, in every state of a mounted hook *)

(** No sender is listed twice, and a listed sender has a pending timer due
    within the next 3000ms.  For a sender other than ["__proto__"]: it is
    listed exactly when the timer table holds a handle for it; when
    listed it has exactly one pending timer, the one the table names; when
    not listed it has none.  The table never holds a handle for
    ["__proto__"]. *)
Theorem presencia_invariante st u :
  alcanzable st →
  NoDup (tu_usuario_id <$> typingUsers st) ∧
  typingTimers st !! proto = None ∧
  (escribe u st →
   ∃ t, t ∈ timers_de u st ∧ ahora st < t_vence t ≤ ahora st + 3000) ∧
  (u ≠ proto →
   (escribe u st ↔ is_Some (typingTimers st !! u)) ∧
   (escribe u st →
    ∃ t, timers_de u st = [t] ∧ typingTimers st !! u = Some (t_id t)) ∧
   (¬ escribe u st → timers_de u st = [])).
Proof.
  intros Halc. pose proof (alcanzable_Inv st Halc) as HI.
  assert (∀ t, t ∈ timers_de u st → ahora st < t_vence t ≤ ahora st + 3000) as Hplazo.
  { intros t [Hcb Ht]%list_elem_of_filter. split.
    - by apply alcanzable_futuros.
    - pose proof (alcanzable_acotados st Halc t Ht) as Hb. by rewrite Hcb in Hb. }
  split_and!; [apply HI | apply HI | |].
  - intros He. destruct (decide (u = proto)) as [->|Hu].
    + destruct (inv_users_proto _ HI He) as (t & Ht & Hcb).
      assert (t ∈ timers_de proto st) as Hin by (by apply list_elem_of_filter).
      exists t. split; [done | by apply Hplazo].
    + apply (inv_users _ HI u Hu) in He as [h Hh].
      destruct (inv_tabla _ HI u h Hh) as (t & Ht & Hid & Hcb).
      assert (t ∈ timers_de u st) as Hin by (by apply list_elem_of_filter).
      exists t. split; [done | by apply Hplazo].
  - intros Hu. split_and!; [by apply HI | |].
    + intros [h Hh]%(inv_users _ HI u Hu).
      destruct (inv_tabla _ HI u h Hh) as (t & Ht & Hid & Hcb).
      exists t. split; [|by rewrite Hid]. apply unico.
      * apply NoDup_ids_filter, HI.
      * by apply list_elem_of_filter.
      * intros x [Hx Hin]%list_elem_of_filter.
        pose proof (inv_expirar _ HI x u Hin Hx Hu). congruence.
    + intros Hno. apply filter_todos_no. intros t Ht Hcb.
      apply Hno, (inv_users _ HI u Hu).
      rewrite (inv_expirar _ HI t u Ht Hcb Hu). by eexists.
Qed.

(** No typing indicator is stuck: 3000ms without any event empty the
    list, whoever was typing. *)
Theorem indicadores_caducan be st :
  alcanzable st → typingUsers (avanzar be 3000 st) = [].
Proof.
  intros Halc. pose proof (alcanzable_Inv st Halc) as HI.
  assert (∀ u, ¬ escribe u (avanzar be 3000 st)) as Hno.
  { intros u. apply avanzar_expira; [done|].
    intros t [Hcb Ht]%list_elem_of_filter.
    pose proof (alcanzable_acotados st Halc t Ht) as Hb. by rewrite Hcb in Hb. }
  destruct (typingUsers (avanzar be 3000 st)) as [|x l] eqn:E; [done|].
  destruct (Hno (tu_usuario_id x)). unfold escribe. rewrite E. by left.
Qed.

(** Senders do not interfere: an event about one sender changes neither
    whether another is listed nor the other's pending timer. *)
Theorem typing_aislado evento v st :
  alcanzable st → te_usuario_id evento ≠ v →
  (escribe v (UseChat.alTyping evento st) ↔ escribe v st) ∧
  timers_de v (UseChat.alTyping evento st) = timers_de v st ∧
  typingTimers (UseChat.alTyping evento st) !! v = typingTimers st !! v.
Proof.
  intros Halc Hne. pose proof (alcanzable_Inv st Halc) as HI.
  destruct (alTyping_campos evento st) as (_ & _ & _ & _ & _ & Hc).
  destruct (alTyping_base st (te_usuario_id evento) HI) as (P & HP & Hb & Hsolo & _).
  rewrite Hb in Hc.
  assert (filter (λ t, t_cb t = CbExpirar v) (filter P (pendientes st)) =
          filter (λ t, t_cb t = CbExpirar v) (pendientes st)) as Hf.
  { apply (filter_ajeno (λ t, t_cb t = CbExpirar v)). intros t Ht Hcb.
    destruct (decide (P t)) as [|Hn]; [done|].
    pose proof (Hsolo t Ht Hn). congruence. }
  unfold escribe, timers_de. destruct (te_escribiendo evento).
  - destruct Hc as (-> & _ & -> & ->). split_and!.
    + rewrite elem_of_agregarTypingUser. split; [intros [?|?]; [congruence|done] | by right].
    + rewrite filter_app, Hf, filter_cons_False, filter_nil, app_nil_r; [done|].
      cbn. congruence.
    + rewrite lookup_asignar_propiedad.
      by rewrite bool_decide_eq_false_2 by (by intros [_ ?]).
  - destruct Hc as (-> & _ & -> & ->). split_and!.
    + rewrite elem_of_quitarTypingUser.
      split; [by intros [_ ?] | intros ?; split; [congruence|done]].
    + done.
    + by apply lookup_delete_ne.
Qed.

(** A "stopped typing" event about a sender that is not listed changes
    neither the list nor the timers: a repeated stop is harmless. *)
Theorem typing_false_ausente u e st :
  alcanzable st → ¬ escribe u st →
  let st1 := UseChat.alTyping
               {| te_usuario_id := u; te_email := e; te_escribiendo := false |} st in
  typingUsers st1 = typingUsers st ∧
  pendientes st1 = pendientes st ∧
  typingTimers st1 = typingTimers st.
Proof.
  intros Halc Hno. pose proof (alcanzable_Inv st Halc) as HI.
  assert (typingTimers st !! u = None) as Htab.
  { destruct (decide (u = proto)) as [->|Hu]; [apply HI|].
    destruct (typingTimers st !! u) as [h|] eqn:E; [|done].
    destruct Hno. apply (inv_users _ HI u Hu). by eexists. }
  destruct (alTyping_campos
              {| te_usuario_id := u; te_email := e; te_escribiendo := false |} st)
    as (_ & _ & _ & _ & _ & Hp & _ & Ht & Hus).
  cbn [te_usuario_id te_escribiendo] in *. rewrite Htab in Hp.
  cbv zeta. rewrite Hp, Ht, Hus, delete_id by done. split_and!; [|done..].
  unfold UseChat.quitarTypingUser. unfold escribe in Hno. revert Hno. clear.
  induction (typingUsers st) as [|x l IH]; [done|].
  rewrite fmap_cons, not_elem_of_cons. intros [Hx Hl].
  rewrite filter_cons_True by congruence. f_equal. by apply IH.
Qed.

(** ** The debouncer, in every state of a mounted hook *)

Lemma ref_vivo_disparar be t st :
  Inv st → t ∈ pendientes st → ref_vivo st → ref_vivo (disparar be t st).
Proof.
  intros HI Ht Hv h. rewrite disparar_typingTimeoutRef, disparar_pendientes.
  destruct (t_cb t) as [|v] eqn:Hcb; [done|].
  intros Hh. destruct (Hv h Hh) as (x & Hx & Hid). exists x. split; [|done].
  apply list_elem_of_filter. split; [|done]. intros Heq.
  assert (x = t) as -> by (eapply mismo_id; eauto using inv_ids_nodup).
  destruct (inv_ref _ HI h Hh) as [_ Hd]. specialize (Hd t Ht Hid). congruence.
Qed.

Lemma ref_vivo_paso be a st : Inv st → ref_vivo st → ref_vivo (paso be a st).
Proof.
  intros HI Hv. destruct a as [|c|i| |fila|ev|dt]; cbn [paso].
  - unfold UseChat.cargarMensajes, ChatUseCase.obtenerMensajes.
    by destruct (ChatUseCase.obtenerMensajes_try _).
  - destruct (enviarMensaje_campos be c st) as (Hp & _ & Hr & _).
    intros h. rewrite Hp, Hr. apply Hv.
  - unfold UseChat.eliminarMensaje, ChatUseCase.eliminarMensaje.
    by destruct (delete_error be).
  - destruct (notifyTyping_campos be st) as (_ & _ & Hr & _).
    intros h. rewrite Hr, notifyTyping_pendientes. intros [= <-].
    eexists. split; [apply elem_of_app; right; by left | done].
  - done.
  - intros h Hh.
    destruct (alTyping_campos ev st) as (_ & _ & _ & _ & Hr & Hc).
    rewrite Hr in Hh.
    destruct (Hv h Hh) as (x & Hx & Hid).
    destruct (inv_ref _ HI h Hh) as [_ Hd]. specialize (Hd x Hx Hid).
    exists x. split; [|done].
    destruct (alTyping_base st (te_usuario_id ev) HI) as (P & HP & Hb & Hsolo & _).
    rewrite Hb in Hc.
    assert (x ∈ filter P (pendientes st)) as Hin.
    { apply list_elem_of_filter. split; [|done].
      destruct (decide (P x)) as [|Hn]; [done|].
      pose proof (Hsolo x Hx Hn). congruence. }
    destruct (te_escribiendo ev); destruct Hc as (-> & _); [|done].
    apply elem_of_app. by left.
  - unfold avanzar.
    cut (let s := correr_timers be (length (pendientes st)) (ahora st + dt) st in
         Inv s ∧ ref_vivo s).
    { cbn. by intros [_ ?]. }
    apply (correr_timers_inv be (λ s, Inv s ∧ ref_vivo s)); [|done].
    intros s t [HIs Hvs] (Ht & _)%proximo_Some.
    split; [by apply Inv_disparar | by apply ref_vivo_disparar].
Qed.

Lemma alcanzable_ref_vivo st : alcanzable st → ref_vivo st.
Proof.
  induction 1 as [|be a st Halc IH]; [done|].
  apply ref_vivo_paso; [by apply alcanzable_Inv | done].
Qed.

Lemma debounce_estado st :
  alcanzable st →
  (typingTimeoutRef st = None ∧ dejar_de st = []) ∨
  (∃ t, typingTimeoutRef st = Some (t_id t) ∧ dejar_de st = [t] ∧
        ahora st < t_vence t ≤ ahora st + 1500).
Proof.
  intros Halc. pose proof (alcanzable_Inv st Halc) as HI.
  destruct (typingTimeoutRef st) as [h|] eqn:Hr.
  - right. destruct (alcanzable_ref_vivo st Halc h Hr) as (t & Ht & Hid).
    destruct (inv_ref _ HI h Hr) as [_ Hd]. pose proof (Hd t Ht Hid) as Hcb.
    exists t. split_and!.
    + by rewrite Hid.
    + apply unico.
      * apply NoDup_ids_filter, HI.
      * by apply list_elem_of_filter.
      * intros x [Hx Hin]%list_elem_of_filter.
        pose proof (inv_dejar _ HI x Hin Hx). congruence.
    + by apply alcanzable_futuros.
    + pose proof (alcanzable_acotados st Halc t Ht) as Hb. by rewrite Hcb in Hb.
  - left. split; [done|]. apply filter_todos_no. intros t Ht Hcb.
    pose proof (inv_dejar _ HI t Ht Hcb). congruence.
Qed.

(** At most one "stop" timer is pending; the ref is non-null exactly while
    one is, and holds its handle; the timer is due within the next
    1500ms. *)
Theorem debounce_invariante st :
  alcanzable st →
  (typingTimeoutRef st = None ∧ dejar_de st = []) ∨
  (∃ t, typingTimeoutRef st = Some (t_id t) ∧ dejar_de st = [t] ∧
        ahora st < t_vence t ≤ ahora st + 1500).
Proof. apply debounce_estado. Qed.

(** After 1500ms without a keystroke the debouncer is at rest: no "stop"
    timer is pending and the ref is null. *)
Theorem debounce_reposo be st :
  alcanzable st →
  dejar_de (avanzar be 1500 st) = [] ∧ typingTimeoutRef (avanzar be 1500 st) = None.
Proof.
  intros Halc. pose proof (alcanzable_Inv st Halc) as HI.
  destruct (debounce_estado st Halc) as [[Hr Hd]|(t & Hr & Hd & Hlt & Hle)].
  - destruct (avanzar_sin_dejar be 1500 st HI) as (_ & Hd' & Hr').
    + intros t. rewrite Hd. by intros ?%elem_of_nil.
    + by rewrite Hd', Hr'.
  - destruct (avanzar_con_dejar be 1500 st t HI) as (_ & Hd' & Hr'); [|done..].
    intros x Hx. pose proof (alcanzable_futuros st Halc x Hx). lia.
Qed.

(** ** Who the client writes for *)

Lemma llamadas_typing_sesion be b (t : nat) x :
  x ∈ (t,.) <$> llamadas_typing be b → llamada_de_sesion be x.
Proof.
  unfold llamadas_typing, llamada_de_sesion.
  destruct (sesion be) as [u|]; cbn.
  - intros [->|[->|[]%elem_of_nil]%elem_of_cons]%elem_of_cons; done.
  - intros [->|[]%elem_of_nil]%elem_of_cons; done.
Qed.

Lemma llamadas_envio_sesion be c (t : nat) x :
  x ∈ (t,.) <$> llamadas_envio be c → llamada_de_sesion be x.
Proof.
  unfold llamadas_envio, llamada_de_sesion.
  destruct (es_vacia _); [by intros ?%elem_of_nil|].
  destruct (sesion be) as [u|]; cbn; rewrite ?elem_of_cons, elem_of_nil;
    intros H; repeat (destruct H as [->|H]; [done|]); done.
Qed.

Lemma paso_sesion be a st x :
  x ∈ red (paso be a st) → x ∈ red st ∨ llamada_de_sesion be x.
Proof.
  destruct a as [|c|i| |fila|ev|dt]; cbn [paso].
  - unfold UseChat.cargarMensajes, ChatUseCase.obtenerMensajes.
    destruct (ChatUseCase.obtenerMensajes_try _); cbn;
      rewrite elem_of_app, list_elem_of_singleton; (intros [?| ->]; [by left|by right]).
  - rewrite enviarMensaje_red, elem_of_app.
    intros [?|?]; [by left | right; by eapply llamadas_envio_sesion].
  - unfold UseChat.eliminarMensaje, ChatUseCase.eliminarMensaje.
    destruct (delete_error be); cbn;
      rewrite elem_of_app, list_elem_of_singleton; (intros [?| ->]; [by left|by right]).
  - destruct (notifyTyping_campos be st) as (_ & _ & _ & _ & _ & ->).
    rewrite elem_of_app.
    intros [?|?]; [by left | right; by eapply llamadas_typing_sesion].
  - by left.
  - assert (red (UseChat.alTyping ev st) = red st) as ->; [|by left].
    apply alTyping_campos.
  - unfold avanzar. cbn.
    apply (correr_timers_inv be (λ s, x ∈ red s → x ∈ red st ∨ llamada_de_sesion be x));
      [|by left].
    intros s t IH _. rewrite disparar_red, elem_of_app.
    intros [?|Hx]; [by apply IH|]. right.
    destruct (t_cb t); [by eapply llamadas_typing_sesion | by apply elem_of_nil in Hx].
Qed.

(** Whatever the hook does, every insert and every typing signal it sends
    is made in the name of the user signed in at that moment; with nobody
    signed in it sends neither. *)
Theorem escrituras_de_sesion be acciones st x :
  x ∈ red (correr be acciones st) → x ∈ red st ∨ llamada_de_sesion be x.
Proof.
  revert st. unfold correr.
  induction acciones as [|a l IH]; intros st; cbn [foldl]; [by left|].
  intros [Hx|?]%IH; [|by right]. by apply paso_sesion in Hx.
Qed.

(** ** Running the cleanup twice *)

Lemma Estado_ext (a b : Estado) :
  mensajes a = mensajes b → cargando a = cargando b → enviando a = enviando b →
  typingUsers a = typingUsers b → typingTimeoutRef a = typingTimeoutRef b →
  typingTimers a = typingTimers b → ahora a = ahora b →
  prox_timer a = prox_timer b → pendientes a = pendientes b →
  disparados a = disparados b → red a = red b → a = b.
Proof. destruct a, b; cbn; intros; by subst. Qed.

(** The cleanup is safe to run again: a second run changes nothing, in any
    state whatever. *)
Theorem limpiar_idempotente st :
  UseChat.limpiar (UseChat.limpiar st) = UseChat.limpiar st.
Proof.
  assert (∀ s, typingTimers (UseChat.limpiar s) = ∅) as Htab.
  { intros s. unfold UseChat.limpiar. by rewrite foldl_clearTimeout. }
  assert (∀ s, typingTimeoutRef (UseChat.limpiar s) = typingTimeoutRef s) as Href.
  { intros s. unfold UseChat.limpiar. rewrite foldl_clearTimeout.
    by destruct (typingTimeoutRef s) eqn:E. }
  assert (∀ s t, t ∈ pendientes (UseChat.limpiar s) →
                 typingTimeoutRef s ≠ Some (t_id t)) as Hp.
  { intros s t. unfold UseChat.limpiar. rewrite foldl_clearTimeout. cbn.
    rewrite elem_of_foldl_filter. intros [Ht _].
    destruct (typingTimeoutRef s) as [h|]; [|done].
    cbn in Ht. apply list_elem_of_filter in Ht as [Hne _]. congruence. }
  remember (UseChat.limpiar st) as s1 eqn:Hs1.
  unfold UseChat.limpiar, valores. rewrite foldl_clearTimeout.
  assert (typingTimers
            match typingTimeoutRef s1 with
            | Some h => clearTimeout h s1
            | None => s1
            end = typingTimers s1) as E.
  { by destruct (typingTimeoutRef s1). }
  rewrite E, Hs1, Htab, <- Hs1, map_to_list_empty. cbn [fmap list_fmap foldl].
  assert (typingTimers s1 = ∅) as Hvacio by (rewrite Hs1; apply Htab).
  apply Estado_ext; destruct (typingTimeoutRef s1) as [h|] eqn:Eh; cbn; try done.
  apply filter_todos. intros t Ht Heq. rewrite Hs1 in Ht. apply (Hp st t Ht).
  rewrite <- Href, <- Hs1. congruence.
Qed.

(* ===================================================================== *)
(** * RecipesUseCase: the extension and the content type of an upload *)
(* ===================================================================== *)

Lemma split_aux_piezas sep acc s p c :
  p ∈ RecipesUseCase.split_aux sep acc s → c ∈ p →
  c ∈ acc ∨ (c ∈ s ∧ sep c = false).
Proof.
  revert acc. induction s as [|d r IH]; intros acc; cbn.
  - intros ->%list_elem_of_singleton Hc. left. by apply elem_of_reverse.
  - destruct (sep d) eqn:Hd.
    + intros [->|Hp]%elem_of_cons Hc.
      * left. by apply elem_of_reverse.
      * destruct (IH [] Hp Hc) as [[]%elem_of_nil|[? ?]]. right. split; [by right|done].
    + intros Hp Hc. destruct (IH (d :: acc) Hp Hc) as [[->|?]%elem_of_cons|[? ?]].
      * right. split; [by left|done].
      * by left.
      * right. split; [by right|done].
Qed.

Lemma split_piezas sep s p c :
  p ∈ RecipesUseCase.split sep s → c ∈ p → c ∈ s ∧ sep c = false.
Proof.
  intros Hp Hc.
  by destruct (split_aux_piezas sep [] s p c Hp Hc) as [[]%elem_of_nil|?].
Qed.

Lemma verdadero_Some (o : option JsString) :
  RecipesUseCase.verdadero o = true → ∃ s, o = Some s ∧ s ≠ [].
Proof. destruct o as [[|c r]|]; cbn; [done| |done]. intros _. by eexists. Qed.

(** Whatever the MIME type and the URI, the extension used for the file
    name and the content type sent with the upload are not empty.  With a
    MIME type, the content type is that type and the extension has no "/".
    Without one, the content type is "image/" followed by the extension,
    and the extension has at most 5 code units, none of them ".", "#" or
    "?". *)
Theorem derivarExtension_ok (mimeType : option JsString) (uri : JsString) :
  let '(extension, contentType) := RecipesUseCase.derivarExtension mimeType uri in
  extension ≠ [] ∧ contentType ≠ [] ∧
  if RecipesUseCase.verdadero mimeType
  then contentType = default [] mimeType ∧
       Forall (λ c, RecipesUseCase.es_barra c = false) extension
  else contentType = RecipesUseCase.image_barra ++ extension ∧
       length extension ≤ 5 ∧
       Forall (λ c, RecipesUseCase.es_punto c = false ∧
                    RecipesUseCase.es_almohadilla_o_interrogacion c = false)
              extension.
Proof.
  unfold RecipesUseCase.derivarExtension.
  destruct (RecipesUseCase.verdadero mimeType) eqn:Hm.
  - destruct (verdadero_Some _ Hm) as (m & -> & Hne). cbn [from_option id].
    destruct (RecipesUseCase.split RecipesUseCase.es_barra m !! 1) as [e|] eqn:He.
    + destruct (RecipesUseCase.verdadero (Some e)) eqn:Hv.
      * destruct (verdadero_Some _ Hv) as (e' & [= <-] & Hne'). cbn [from_option id].
        split_and!; [done..|]. apply Forall_forall. intros c Hc.
        apply list_elem_of_lookup_2 in He.
        by destruct (split_piezas _ _ _ _ He Hc).
      * split_and!; [done..|]. by repeat constructor.
    + cbn. split_and!; [done..|]. by repeat constructor.
  - set (maybeExt := head _).
    destruct (RecipesUseCase.verdadero maybeExt) eqn:Hv; cbn [andb].
    + destruct (verdadero_Some _ Hv) as (e & He & Hne). rewrite He in Hv |- *.
      cbn [from_option id].
      destruct (Nat.leb_spec (length e) 5) as [Hle|Hgt].
      * rewrite Hv. cbn [from_option id]. split_and!; [done|done|done|done|].
        apply Forall_forall. intros c Hc.
        unfold maybeExt in He. apply head_Some_elem_of in He.
        destruct (split_piezas _ _ _ _ He Hc) as [Hin Hsep]. split; [|done].
        destruct (last _) as [u|] eqn:Hl; [|by apply elem_of_nil in Hin].
        cbn in Hin. apply last_Some_elem_of in Hl.
        by destruct (split_piezas _ _ _ _ Hl Hin).
      * cbn. split_and!; [done..|lia|]. by repeat constructor.
    + cbn. split_and!; [done..|lia|]. by repeat constructor.
Qed.

(* ===================================================================== *)
(** * The further properties at work on sample values *)
(* ===================================================================== *)

Lemma envio_errores_witness :
  error (UseChat.enviarMensaje Ejemplos.backend_sin_sesion Ejemplos.hola inicial).1 =
    Some "Usuario no autenticado".
Proof.
  apply (envio_errores Ejemplos.backend_sin_sesion Ejemplos.hola inicial).
  vm_compute. discriminate.
Defined.

Lemma envio_no_muestra_witness :
  mensajes (UseChat.enviarMensaje Ejemplos.backend Ejemplos.hola inicial).2 = [] ∧
  enviando (UseChat.enviarMensaje Ejemplos.backend Ejemplos.hola inicial).2 = false.
Proof. apply (envio_no_muestra Ejemplos.backend Ejemplos.hola inicial). reflexivity. Defined.

Lemma historial_completo_witness :
  length (ChatUseCase.obtenerMensajes Ejemplos.backend 50 inicial).1 = 2.
Proof.
  apply (historial_completo Ejemplos.backend 50 inicial
           (Some [Ejemplos.fila2; Ejemplos.fila1])).
  reflexivity.
Defined.

Lemma cargarMensajes_fallo_witness :
  mensajes (UseChat.cargarMensajes Ejemplos.backend_caido
              (UseChat.cargarMensajes Ejemplos.backend inicial)) = [] ∧
  cargando (UseChat.cargarMensajes Ejemplos.backend_caido
              (UseChat.cargarMensajes Ejemplos.backend inicial)) = false.
Proof. apply cargarMensajes_fallo. reflexivity. Defined.

Lemma agregarSiNuevo_casos_witness :
  UseChat.agregarSiNuevo [ChatUseCase.formatear Ejemplos.fila1]
    (ChatUseCase.mensajeDePayload Ejemplos.fila1) =
  [ChatUseCase.formatear Ejemplos.fila1].
Proof.
  destruct (agregarSiNuevo_casos [ChatUseCase.formatear Ejemplos.fila1]
              (ChatUseCase.mensajeDePayload Ejemplos.fila1)) as (H & _ & _).
  apply H. apply (bool_decide_unpack _). vm_compute. exact I.
Defined.

Lemma presencia_invariante_witness :
  ∃ t, timers_de "u-luis" Ejemplos.con_luis = [t] ∧
       typingTimers Ejemplos.con_luis !! "u-luis" = Some (t_id t).
Proof.
  destruct (presencia_invariante Ejemplos.con_luis "u-luis") as (_ & _ & _ & H).
  - apply alc_paso, alc_inicial.
  - destruct H as (_ & H & _); [discriminate|].
    apply H. apply (bool_decide_unpack _). vm_compute. exact I.
Defined.

Lemma indicadores_caducan_witness :
  typingUsers (avanzar Ejemplos.backend 3000 Ejemplos.con_luis) = [].
Proof. apply indicadores_caducan. apply alc_paso, alc_inicial. Defined.

Lemma typing_aislado_witness :
  escribe "u-luis"
    (UseChat.alTyping
       {| te_usuario_id := "u-ana"; te_email := None; te_escribiendo := false |}
       Ejemplos.con_luis) ↔
  escribe "u-luis" Ejemplos.con_luis.
Proof.
  apply (typing_aislado
           {| te_usuario_id := "u-ana"; te_email := None; te_escribiendo := false |}
           "u-luis" Ejemplos.con_luis).
  - apply alc_paso, alc_inicial.
  - cbn. discriminate.
Defined.

Lemma typing_false_ausente_witness :
  typingUsers
    (UseChat.alTyping
       {| te_usuario_id := "u-ana"; te_email := None; te_escribiendo := false |}
       Ejemplos.con_luis) =
  typingUsers Ejemplos.con_luis.
Proof.
  apply (typing_false_ausente "u-ana" None Ejemplos.con_luis).
  - apply alc_paso, alc_inicial.
  - apply (bool_decide_unpack _). vm_compute. exact I.
Defined.

Lemma debounce_invariante_witness :
  (typingTimeoutRef Ejemplos.tecleando = None ∧ dejar_de Ejemplos.tecleando = []) ∨
  (∃ t, typingTimeoutRef Ejemplos.tecleando = Some (t_id t) ∧
        dejar_de Ejemplos.tecleando = [t] ∧
        ahora Ejemplos.tecleando < t_vence t ≤ ahora Ejemplos.tecleando + 1500).
Proof. apply debounce_invariante. apply alc_paso, alc_paso, alc_inicial. Defined.

Lemma debounce_reposo_witness :
  dejar_de (avanzar Ejemplos.backend 1500 Ejemplos.tecleando) = [] ∧
  typingTimeoutRef (avanzar Ejemplos.backend 1500 Ejemplos.tecleando) = None.
Proof. apply debounce_reposo. apply alc_paso, alc_paso, alc_inicial. Defined.

Lemma escrituras_de_sesion_witness :
  (0, LlBroadcast "u-ana" "ana@recetas.app" true) ∈ red inicial ∨
  llamada_de_sesion Ejemplos.backend (0, LlBroadcast "u-ana" "ana@recetas.app" true).
Proof.
  apply (escrituras_de_sesion Ejemplos.backend [ANotifyTyping] inicial).
  apply (bool_decide_unpack _). vm_compute. exact I.
Defined.
